(** * opietoolkitplus: device discovery, backup, verification and restore

    A shallow embedding of the Python helpers of the toolkit
    ([helpers/u.py], [helpers/mount.py], [helpers/op1.py],
    [helpers/backups.py], [helpers/backup_metadata.py], [helpers/rips.py])
    and of its commands ([commands/verify.py], [commands/restore.py],
    [commands/storage.py], [opie.py]) together with the properties they
    satisfy.

    Conventions of the embedding:
    - a Python [str] is a [string], a sequence of 8-bit characters; the
      character classes of [re] are taken on ASCII;
    - a Python [dict] with string keys is a [gmap string _], a [set] of
      strings a [gset string];
    - [print] appends a line to an explicit output log;
    - an exception is a value of [exn]; a function that may raise returns
      [except _];
    - the operating system (directory listings, the [mount] command, the
      state of an archive file) is an explicit argument. *)

From Stdlib Require Import ZArith Ascii String List Lia Bool DecimalString.
From stdpp Require Import base option gmap strings list sorting.

Local Open Scope Z_scope.

Set Warnings "-register-all".

(** * Part I: the embedding *)

(** ** Python exceptions *)

Inductive exn_class :=
  | PermissionError
  | FileNotFoundError
  | NotADirectoryError
  | IsADirectoryError
  | FileExistsError
  | IndexError
  | ReadError
  | ValueError
  | RuntimeError
  | OtherError.

#[global] Instance exn_class_eq_dec : EqDecision exn_class.
Proof. solve_decision. Defined.

(** An exception: its class and the text that [str(e)] yields. *)
Record exn := Exn { exn_cls : exn_class; exn_msg : string }.

#[global] Instance exn_eq_dec : EqDecision exn.
Proof. solve_decision. Defined.

Inductive except (A : Type) :=
  | Ok (a : A)
  | Raise (e : exn).
Arguments Ok {A} a.
Arguments Raise {A} e.

#[global] Instance except_ret : MRet except := fun _ a => Ok a.
#[global] Instance except_bind : MBind except := fun _ _ k m =>
  match m with
  | Ok a => k a
  | Raise e => Raise e
  end.
#[global] Instance except_fmap : FMap except := fun _ _ f m =>
  match m with
  | Ok a => Ok (f a)
  | Raise e => Raise e
  end.

(** ** Python strings *)

Module Py.

Definition nl : ascii := ascii_of_nat 10.

(** [s.startswith(p)] *)
Fixpoint startswith (s p : string) : bool :=
  match p, s with
  | EmptyString, _ => true
  | String a p', String b s' => if decide (a = b) then startswith s' p' else false
  | String _ _, EmptyString => false
  end.

(** The rest of [s] after the prefix [p], when [s] starts with [p]. *)
Fixpoint strip_prefix (p s : string) : option string :=
  match p, s with
  | EmptyString, _ => Some s
  | String a p', String b s' => if decide (a = b) then strip_prefix p' s' else None
  | String _ _, EmptyString => None
  end.

(** [s.split(sep)] for a separator of one character: never empty. *)
Fixpoint split (sep : ascii) (s : string) : list string :=
  match s with
  | EmptyString => [EmptyString]
  | String c s' =>
      if decide (c = sep) then EmptyString :: split sep s'
      else match split sep s' with
           | w :: ws => String c w :: ws
           | [] => [String c EmptyString]
           end
  end.

(** [sep.join(l)] *)
Fixpoint join (sep : string) (l : list string) : string :=
  match l with
  | [] => ""
  | [w] => w
  | w :: ws => w +:+ sep +:+ join sep ws
  end.

(** [s.upper()] on ASCII letters. *)
Definition upper_char (c : ascii) : ascii :=
  let n := nat_of_ascii c in
  if ((97 <=? n) && (n <=? 122))%nat then ascii_of_nat (n - 32) else c.

Fixpoint upper (s : string) : string :=
  match s with
  | EmptyString => EmptyString
  | String c s' => String (upper_char c) (upper s')
  end.

(** [s[0]], which raises [IndexError] on the empty string. *)
Definition first_char (s : string) : except ascii :=
  match s with
  | EmptyString => Raise (Exn IndexError "string index out of range")
  | String c _ => Ok c
  end.

(** [s[start:stop]] *)
Definition slice (s : string) (start stop : nat) : string :=
  String.substring start (stop - start) s.

(** [list(filter(f, l))] for a predicate [f] that may raise. *)
Fixpoint filter_raising {A} (f : A → except bool) (l : list A) : except (list A) :=
  match l with
  | [] => Ok []
  | x :: l' =>
      b ← f x;
      r ← filter_raising f l';
      Ok (if b : bool then x :: r else r)
  end.

End Py.

(** ** posixpath *)

Module PosixPath.

(** The loop of [normpath] over the components, [acc] being [new_comps]
    in reverse. *)
Fixpoint normpath_comps (initial_slashes : nat) (acc : list string)
    (comps : list string) : list string :=
  match comps with
  | [] => rev acc
  | comp :: rest =>
      if decide (comp = "" ∨ comp = ".") then
        normpath_comps initial_slashes acc rest
      else if decide (comp ≠ ".."
                      ∨ (initial_slashes = 0%nat ∧ acc = [])
                      ∨ head acc = Some "..") then
        normpath_comps initial_slashes (comp :: acc) rest
      else
        normpath_comps initial_slashes (tail acc) rest
  end.

Fixpoint slashes (n : nat) : string :=
  match n with
  | O => ""
  | S n' => String "/" (slashes n')
  end.

(** [os.path.normpath] *)
Definition normpath (path : string) : string :=
  if decide (path = "") then "."
  else
    let initial_slashes : nat :=
      if Py.startswith path "/" then
        if Py.startswith path "//" && negb (Py.startswith path "///")
        then 2%nat else 1%nat
      else 0%nat in
    let comps := normpath_comps initial_slashes [] (Py.split "/" path) in
    let p := slashes initial_slashes +:+ Py.join "/" comps in
    if decide (p = "") then "." else p.

(** [os.path.join(a, b)] *)
Definition join (a b : string) : string :=
  if Py.startswith b "/" then b
  else if decide (a = "") then b
  else if Py.startswith (String.string_of_list_ascii (rev (String.list_ascii_of_string a))) "/"
       then a +:+ b
       else a +:+ "/" +:+ b.

End PosixPath.

(** ** The fragment of [re] that [helpers/mount.py] uses *)

Module Re.

(** Patterns. Repetition is over one-character classes only, which is all
    the mount pattern needs; every repetition is greedy and gives back
    characters one at a time when the rest of the pattern fails. *)
Inductive regex :=
  | Lit (s : string)                 (* the characters of [s] *)
  | Star (cls : ascii → bool)        (* [c*] *)
  | Plus (cls : ascii → bool)        (* [c+] *)
  | Seq (r1 r2 : regex)
  | Opt (r : regex)                  (* [(r)?] *)
  | Group (name : string) (r : regex)  (* [(?P<name>r)] *)
  | Bol                              (* [^] *)
  | Eol.                             (* [$] *)

Infix "⋅" := Seq (at level 61, left associativity).

(** [\s]: the ASCII characters for which [str.isspace] holds. *)
Definition space (c : ascii) : bool :=
  let n := nat_of_ascii c in
  ((9 <=? n) && (n <=? 13) || (28 <=? n) && (n <=? 32))%nat.

(** [\w] on ASCII: letters, digits and the underscore. *)
Definition word (c : ascii) : bool :=
  let n := nat_of_ascii c in
  ((48 <=? n) && (n <=? 57) || (65 <=? n) && (n <=? 90)
   || (97 <=? n) && (n <=? 122) || (n =? 95))%nat.

(** [.]: anything but a line feed. *)
Definition dot (c : ascii) : bool := negb (nat_of_ascii c =? 10)%nat.

(** [[^\0]] *)
Definition not_nul (c : ascii) : bool := negb (nat_of_ascii c =? 0)%nat.

(** The spans of the named groups, as offsets into the subject. *)
Abbreviation captures := (gmap string (nat * nat)).

(** A continuation receives the offset reached, the rest of the subject
    and the groups closed so far. *)
Abbreviation cont := (nat → string → captures → option captures).

Fixpoint star (cls : ascii → bool) (pos : nat) (s : string) (caps : captures)
    (k : cont) : option captures :=
  match s with
  | String c s' =>
      if cls c then
        match star cls (S pos) s' caps k with
        | Some r => Some r
        | None => k pos s caps
        end
      else k pos s caps
  | EmptyString => k pos s caps
  end.

Fixpoint run (r : regex) (pos : nat) (s : string) (caps : captures)
    (k : cont) : option captures :=
  match r with
  | Lit l =>
      match Py.strip_prefix l s with
      | Some s' => k (pos + String.length l)%nat s' caps
      | None => None
      end
  | Star cls => star cls pos s caps k
  | Plus cls =>
      match s with
      | String c s' => if cls c then star cls (S pos) s' caps k else None
      | EmptyString => None
      end
  | Seq r1 r2 => run r1 pos s caps (fun pos' s' caps' => run r2 pos' s' caps' k)
  | Opt r' =>
      match run r' pos s caps k with
      | Some c => Some c
      | None => k pos s caps
      end
  | Group name r' =>
      run r' pos s caps (fun pos' s' caps' => k pos' s' (<[name := (pos, pos')]> caps'))
  | Bol => if (pos =? 0)%nat then k pos s caps else None
  | Eol =>
      if decide (s = "" ∨ s = String Py.nl "") then k pos s caps else None
  end.

(** [re.match(r, line)]: the pattern is tried at the start of the line. *)
Definition rmatch (r : regex) (line : string) : option captures :=
  run r 0 line ∅ (fun _ _ caps => Some caps).

(** [match.group(name)] for a group that took part in the match. *)
Definition group (line : string) (m : captures) (name : string) : string :=
  match m !! name with
  | Some (start, stop) => Py.slice line start stop
  | None => ""
  end.

End Re.

(** ** helpers/mount.py *)

Inductive platform := Windows | Linux | Darwin.

#[global] Instance platform_eq_dec : EqDecision platform.
Proof. solve_decision. Defined.

(** What [subprocess.run] returns. *)
Record CompletedProcess := {
  returncode : Z;
  stdout : option string
}.

Module Mount.
Import Re.

(** The pattern of [get_mount_from_line], token by token:
    [^], [\s*], the group [device] holding [/dev/] and [\w+], the text
    [ on ], the group [mount] holding [[^\0]+], one blank, an optional
    group holding [type ] and [.*], then [\(], [.*], [\)], [\s*] and [$].
    The optional group has no name and is never read. *)
Definition mount_line : regex :=
  Bol ⋅ Star space
  ⋅ Group "device" (Lit "/dev/" ⋅ Plus word)
  ⋅ Lit " on "
  ⋅ Group "mount" (Plus not_nul)
  ⋅ Lit " "
  ⋅ Opt (Lit "type " ⋅ Star dot)
  ⋅ Lit "(" ⋅ Star dot ⋅ Lit ")"
  ⋅ Star space ⋅ Eol.

Definition get_mount_from_line (line : string) : option (string * string) :=
  match rmatch mount_line line with
  | Some m => Some (group line m "device", group line m "mount")
  | None => None
  end.

(** [windll.kernel32.GetLogicalDrives()] is the argument [bitmask]. *)
Fixpoint drives_of_bitmask (letters : list ascii) (bitmask : Z) : list string :=
  match letters with
  | [] => []
  | letter :: rest =>
      (if Z.testbit bitmask 0 then [String letter ":\"] else [])
      ++ drives_of_bitmask rest (Z.shiftr bitmask 1)
  end.

Definition ascii_uppercase : list ascii :=
  String.list_ascii_of_string "ABCDEFGHIJKLMNOPQRSTUVWXYZ".

Definition get_windows_drives (bitmask : Z) : list string :=
  drives_of_bitmask ascii_uppercase bitmask.

Definition BAD_PREFIX : list string :=
  ["/dev"; "/sys"; "/net"; "/proc"; "/run"; "/boot"].

(** [system_drive] is the environment variable [SystemDrive], if set. *)
Definition is_poopy_mount (system : platform) (system_drive : option string)
    (mount : string) : bool :=
  if decide (system = Windows) then
    let system_drive := default "C:" system_drive in
    Py.startswith (Py.upper mount) (Py.upper system_drive)
  else
    if decide (mount = "/" ∨ mount = "/home") then true
    else existsb (fun prefix => Py.startswith mount prefix) BAD_PREFIX.

(** The host as [get_potential_mounts] sees it. *)
Record host := {
  system : platform;
  system_drive : option string;   (* [os.environ.get('SystemDrive')] *)
  logical_drives : Z;             (* [GetLogicalDrives()] *)
  mount_command : CompletedProcess  (* [run(["mount"], ...)] *)
}.

(** The result is [None] for Python's [None]; the second component is what
    was printed. *)
Definition get_potential_mounts (h : host)
    : option (list (string * string)) * list string :=
  if decide (system h = Windows) then
    let drives := get_windows_drives (logical_drives h) in
    (Some (omap (fun drive =>
                   if is_poopy_mount (system h) (system_drive h) drive
                   then None else Some (drive, drive)) drives), [])
  else
    let result := mount_command h in
    if decide (returncode result ≠ 0) then
      (None, ["mount command appeared to fail"])
    else
      match stdout result with
      | None => (None, ["uh oh"])
      | Some out =>
          let lines := Py.split Py.nl out in
          let mounts := map get_mount_from_line lines in
          let filtered :=
            omap (fun x =>
                    match x with
                    | Some (device, mount) =>
                        if is_poopy_mount (system h) (system_drive h) mount
                        then None else Some (device, mount)
                    | None => None
                    end) mounts in
          (Some filtered, [])
      end.

End Mount.

(** ** The file system as the helpers query it *)

(** [os.listdir], [os.path.isdir] and [os.path.exists]. *)
Record os_view := {
  listdir : string → except (list string);
  isdir : string → bool;
  path_exists : string → bool
}.

(** ** helpers/u.py *)

Module U.

Definition get_visible_children (os : os_view) (d : string) : except (list string) :=
  names ← listdir os d;
  Py.filter_raising
    (fun x => c ← Py.first_char x; Ok (bool_decide (c ≠ "."%char)))
    names.

Definition get_visible_folders (os : os_view) (d : string) : except (list string) :=
  children ← get_visible_children os d;
  Ok (List.filter (fun x => isdir os (PosixPath.join d x)) children).

End U.

(** ** helpers/op1.py *)

Module Op1.

Definition OP1_BASE_DIRS : gset string :=
  list_to_set ["tape"; "album"; "synth"; "drum"].

(** The result and what was printed. *)
Definition is_op1_drive (os : os_view) (path : string) : bool * list string :=
  let path := PosixPath.normpath path in
  match U.get_visible_folders os path with
  | Ok folders =>
      let subdirs : gset string := list_to_set folders in
      (bool_decide (OP1_BASE_DIRS ⊆ subdirs), [])
  | Raise e =>
      if decide (exn_cls e = PermissionError ∨ exn_cls e = FileNotFoundError)
      then (false, [])
      else (false, ["Warning: Unexpected error checking path " +:+ path
                    +:+ ": " +:+ exn_msg e])
  end.

Definition is_valid_mount (os : os_view) (mount_point : string) : bool * list string :=
  let mount_point := PosixPath.normpath mount_point in
  if path_exists os mount_point then is_op1_drive os mount_point
  else (false, []).

Definition DRIVE_REMOVABLE : Z := 2.

(** The machine [find_op1_mount] runs on: the host of [helpers/mount.py],
    the file system, and [win32file.GetDriveType]. *)
Record machine := {
  host : Mount.host;
  os : os_view;
  GetDriveType : string → except Z
}.

Fixpoint removable_among (drive_type : string → except Z) (letters : list ascii)
    : list string :=
  match letters with
  | [] => []
  | letter :: rest =>
      let drive := String letter ":\" in
      match drive_type drive with
      | Ok t =>
          if decide (t = DRIVE_REMOVABLE)
          then drive :: removable_among drive_type rest
          else removable_among drive_type rest
      | Raise _ => removable_among drive_type rest
      end
  end.

Definition get_removable_drives (m : machine) : list string :=
  if decide (Mount.system (host m) ≠ Windows) then []
  else removable_among (GetDriveType m) Mount.ascii_uppercase.

(** The loop of [find_op1_mount] over the candidate mount points: the
    first one [is_op1_drive] accepts is returned. [is_op1_drive] raises
    nothing, so the handler around the call on the Unix side never runs. *)
Fixpoint first_op1 (os : os_view) (mount_points : list string)
    : option string * list string :=
  match mount_points with
  | [] => (None, [])
  | mount_point :: rest =>
      let '(found, out) := is_op1_drive os mount_point in
      if found then (Some mount_point, out ++ ["Found OP-1 at " +:+ mount_point])
      else let '(r, out') := first_op1 os rest in (r, out ++ out')
  end.

Definition find_op1_mount (m : machine) : option string * list string :=
  if decide (Mount.system (host m) = Windows) then
    first_op1 (os m) (get_removable_drives m)
  else
    let '(mounts, out) := Mount.get_potential_mounts (host m) in
    match mounts with
    | None | Some [] => (None, out)
    | Some mounts =>
        let '(r, out') := first_op1 (os m) (map snd mounts) in (r, out ++ out')
    end.

End Op1.

(** ** A file system of files and directories *)

Module Fs.

(** A regular file with its bytes, or a directory with its entries in the
    order [os.listdir] reports them. *)
Inductive node :=
  | File (data : string)
  | Dir (entries : list (string * node)).

Definition is_dir (n : node) : bool :=
  match n with
  | Dir _ => true
  | File _ => false
  end.

(** The entry called [name], if any. *)
Fixpoint child (entries : list (string * node)) (name : string) : option node :=
  match entries with
  | [] => None
  | (n, c) :: rest => if decide (n = name) then Some c else child rest name
  end.

(** The node a sequence of names leads to. *)
Fixpoint lookup (p : list string) (t : node) : option node :=
  match p with
  | [] => Some t
  | c :: p' =>
      match t with
      | Dir es => match child es c with
                  | Some t' => lookup p' t'
                  | None => None
                  end
      | File _ => None
      end
  end.

(** One step of path resolution, the names walked so far in reverse. *)
Definition resolve_step (acc : list string) (comp : string) : list string :=
  if decide (comp = "" ∨ comp = ".") then acc
  else if decide (comp = "..") then tail acc
  else comp :: acc.

(** The names an absolute or relative path walks through from the root:
    the working directory is the root, the parent of the root is the root,
    and there are no symbolic links. *)
Definition components (path : string) : list string :=
  rev (fold_left resolve_step (Py.split "/" path) []).

Definition stat (root : node) (path : string) : option node :=
  lookup (components path) root.

(** [os.scandir]: the entries of a directory, each with its node. *)
Definition scandir (root : node) (path : string) : except (list (string * node)) :=
  match stat root path with
  | Some (Dir es) => Ok es
  | Some (File _) => Raise (Exn NotADirectoryError ("Not a directory: " +:+ path))
  | None => Raise (Exn FileNotFoundError ("No such file or directory: " +:+ path))
  end.

(** The tree as the helpers query it. *)
Definition view (root : node) : os_view := {|
  listdir path := fmap (M := except) (map fst) (scandir root path);
  isdir path := match stat root path with Some (Dir _) => true | _ => false end;
  path_exists path := match stat root path with Some _ => true | None => false end
|}.

(** [os.path.relpath(path, start)] *)
Fixpoint common_prefix (l1 l2 : list string) : list string :=
  match l1, l2 with
  | a :: l1', b :: l2' => if decide (a = b) then a :: common_prefix l1' l2' else []
  | _, _ => []
  end.

Definition relpath (path start : string) : string :=
  let start_list := components start in
  let path_list := components path in
  let i := length (common_prefix start_list path_list) in
  let rel_list := replicate (length start_list - i) ".." ++ drop i path_list in
  match rel_list with
  | [] => "."
  | _ => Py.join "/" rel_list
  end.

(** [os.walk(top)] where [n] is the node at [top]: one triple
    [(root, dirs, files)] per directory, the directory itself first, then
    its subdirectories in order. The entries carry their nodes. *)
Fixpoint walk (top : string) (n : node)
    : list (string * list (string * node) * list (string * node)) :=
  match n with
  | File _ => []
  | Dir es =>
      (top, List.filter (fun e => is_dir e.2) es,
            List.filter (fun e => negb (is_dir e.2)) es)
      :: flat_map (fun e => walk (PosixPath.join top e.1) e.2) es
  end.

(** A name without a slash. *)
Fixpoint slash_free (s : string) : bool :=
  match s with
  | EmptyString => true
  | String c s' => bool_decide (c ≠ "/"%char) && slash_free s'
  end.

(** A name a directory can list: not empty, not [.] or [..], no slash. *)
Definition clean_name (s : string) : bool :=
  bool_decide (s ≠ "") && bool_decide (s ≠ ".") && bool_decide (s ≠ "..")
  && slash_free s.

(** Every directory lists clean names, each once. *)
Fixpoint well_formed (n : node) : bool :=
  match n with
  | File _ => true
  | Dir es =>
      bool_decide (NoDup (map fst es))
      && forallb (fun e => clean_name e.1 && well_formed e.2) es
  end.

(** Replaces the first entry called [name]. *)
Fixpoint set_child (entries : list (string * node)) (name : string) (t : node)
    : list (string * node) :=
  match entries with
  | [] => []
  | (n, c) :: rest =>
      if decide (n = name) then (n, t) :: rest else (n, c) :: set_child rest name t
  end.

End Fs.

(** ** tarfile *)

Module Tar.
Import Fs.

(** A member is a regular file with its bytes or a directory. *)
Inductive kind :=
  | RegFile (data : string)
  | Directory.

#[global] Instance kind_eq_dec : EqDecision kind.
Proof. solve_decision. Defined.

Record TarInfo := { name : string; typ : kind }.

#[global] Instance TarInfo_eq_dec : EqDecision TarInfo.
Proof. solve_decision. Defined.

(** What lies at an archive path: something [tarfile.open] rejects with
    the given message, or an archive with its members in order. *)
Inductive tarball :=
  | Unreadable (msg : string)
  | Archive (members : list TarInfo).

(** [tarfile.open(path, "r:xz")] followed by [getmembers()]; [at_path]
    tells what lies at each path, [None] where there is nothing. *)
Definition open_members (at_path : string → option tarball) (path : string)
    : except (list TarInfo) :=
  match at_path path with
  | None => Raise (Exn FileNotFoundError ("No such file or directory: " +:+ path))
  | Some (Unreadable msg) => Raise (Exn ReadError msg)
  | Some (Archive members) => Ok members
  end.

Definition kind_of (n : node) : kind :=
  match n with
  | File d => RegFile d
  | Dir _ => Directory
  end.

(** [tar.add(path, arcname, recursive=False)] for the node [n] at [path]. *)
Definition add_flat (arcname : string) (n : node) : list TarInfo :=
  [ {| name := arcname; typ := kind_of n |} ].

Fixpoint insert_sorted {A} (x : string * A) (l : list (string * A)) : list (string * A) :=
  match l with
  | [] => [x]
  | y :: l' => if String.leb x.1 y.1 then x :: l else y :: insert_sorted x l'
  end.

(** [sorted] on the names. *)
Definition sort_by_name {A} (l : list (string * A)) : list (string * A) :=
  foldr insert_sorted [] l.

(** [tar.add(path, arcname)] for the node [n] at [path]: the member itself
    and, for a directory, every entry of [sorted(os.listdir(path))] added
    the same way under [os.path.join(arcname, f)]. The members of each
    entry are computed first and then put in the order of the names. *)
Fixpoint add (arcname : string) (n : node) : list TarInfo :=
  match n with
  | File d => [ {| name := arcname; typ := RegFile d |} ]
  | Dir es =>
      {| name := arcname; typ := Directory |}
      :: flat_map snd
           (sort_by_name
              (map (fun e => (e.1, add (PosixPath.join arcname e.1) e.2)) es))
  end.

(** A fresh node for the path [p] below a directory that lacks it. *)
Fixpoint create (p : list string) (k : kind) : node :=
  match p with
  | [] => match k with RegFile d => File d | Directory => Dir [] end
  | c :: p' => Dir [(c, create p' k)]
  end.

(** Writing a member at the names [p] below [t]: missing directories on
    the way are made, a file replaces a file, a directory that is there
    stays as it is; a file on the way, a file where a directory is, or a
    directory where a file is, raise. *)
Fixpoint put (p : list string) (k : kind) (t : node) : except node :=
  match p with
  | [] =>
      match t, k with
      | Dir _, Directory => Ok t
      | File _, RegFile d => Ok (File d)
      | Dir _, RegFile _ => Raise (Exn IsADirectoryError "Is a directory")
      | File _, Directory => Raise (Exn FileExistsError "File exists")
      end
  | c :: p' =>
      match t with
      | File _ => Raise (Exn NotADirectoryError "Not a directory")
      | Dir es =>
          match child es c with
          | Some t' => t'' ← put p' k t'; Ok (Dir (set_child es c t''))
          | None => Ok (Dir (es ++ [(c, create p' k)]))
          end
      end
  end.

(** [tar.extract(member, path)]: the member lands at
    [os.path.join(path, member.name)]. *)
Definition extract (root : node) (member : TarInfo) (path : string) : except node :=
  put (components (PosixPath.join path (name member))) (typ member) root.

End Tar.

(** ** Python's float arithmetic on positive numbers *)

Module PyFloat.

(** A finite positive binary64 number [mant * 2 ^ expo]. The exponent is
    not bounded: the quotients and products below stay far inside the
    range of normal numbers. *)
Record float := { mant : Z; expo : Z }.

(** The integer nearest to [n / d], ties to even. *)
Definition nearest_even (n d : Z) : Z :=
  let q := n / d in
  let r := n mod d in
  if 2 * r <? d then q
  else if d <? 2 * r then q + 1
  else if Z.even q then q else q + 1.

(** Whether [den * 2 ^ e <= num]. *)
Definition pow2_le (num den e : Z) : bool :=
  if 0 <=? e then den * 2 ^ e <=? num else den <=? num * 2 ^ (- e).

(** The [e] with [2 ^ e <= num / den < 2 ^ (e + 1)]. *)
Definition floor_log2 (num den : Z) : Z :=
  let d := Z.log2 num - Z.log2 den in
  if pow2_le num den d then d else d - 1.

(** [num / den] rounded to 53 significant bits, ties to even. *)
Definition round_ratio (num den : Z) : float :=
  let e := floor_log2 num den - 52 in
  {| mant := nearest_even (num * 2 ^ Z.max 0 (- e)) (den * 2 ^ Z.max 0 e);
     expo := e |}.

(** [m * 2 ^ e] as a fraction. *)
Definition ratio_of (m e : Z) : Z * Z :=
  if 0 <=? e then (m * 2 ^ e, 1) else (m, 2 ^ (- e)).

(** [a / b] on positive integers: the quotient correctly rounded. *)
Definition true_div (a b : Z) : float := round_ratio a b.

(** [float(n)] for a positive integer. *)
Definition of_int (n : Z) : float := round_ratio n 1.

(** [x * y] *)
Definition mul (x y : float) : float :=
  let '(n, d) := ratio_of (mant x * mant y) (expo x + expo y) in
  round_ratio n d.

(** [int(x)]: the fraction is dropped. *)
Definition to_int (x : float) : Z :=
  let '(n, d) := ratio_of (mant x) (expo x) in n / d.

End PyFloat.

(** ** helpers/backups.py *)

Module Backups.
Import Fs Tar.

Definition hidden (name : string) : bool := Py.startswith name ".".

(** The body of the loop over [os.walk(child_path)]: every entry of
    [files + dirs] that is not hidden is added under its path relative to
    the mount, with the default [recursive=True]. *)
Definition add_walked (mount : string)
    (triple : string * list (string * node) * list (string * node))
    : list TarInfo :=
  let '(root, dirs, files) := triple in
  flat_map
    (fun e =>
       if hidden e.1 then []
       else
         let full_path := PosixPath.join root e.1 in
         let archive_name := PosixPath.normpath (relpath full_path mount) in
         Tar.add archive_name e.2)
    (files ++ dirs).

(** The body of the loop over [os.listdir(mount)]. *)
Definition add_child (mount : string) (e : string * node) : list TarInfo :=
  let child := e.1 in
  if hidden child then []
  else
    let child_path := PosixPath.join mount child in
    let archive_child := PosixPath.normpath child in
    Tar.add_flat archive_child e.2
    ++ (if is_dir e.2
        then flat_map (add_walked mount) (walk child_path e.2)
        else []).

(** [generate_archive(mount, backups_dir)]: the path of the archive and
    the members written to it; [timestamp] is
    [datetime.now().strftime("%Y-%m-%d-%H%M%S")]. The progress bar is
    left out. *)
Definition generate_archive (root : node) (timestamp : string)
    (mount backups_dir : string) : except (string * list TarInfo) :=
  let archive_name := "opie-backup-" +:+ timestamp +:+ ".tar.xz" in
  let archive_path := PosixPath.join backups_dir archive_name in
  let mount := PosixPath.normpath mount in
  children ← scandir root mount;
  Ok (archive_path, flat_map (add_child mount) children).

(** [int((i + 1) / total_members * 100)] *)
Definition progress (i total_members : Z) : Z :=
  PyFloat.to_int
    (PyFloat.mul (PyFloat.true_div (i + 1) total_members) (PyFloat.of_int 100)).

(** The state of a restore: the tree and the values handed to
    [progress_callback] so far, oldest first. *)
Record restore_state := {
  tree : node;
  reported : list Z
}.

(** The loop over [enumerate(members)] from index [i] on. An exception
    leaves the state as it was when it was raised. *)
Fixpoint extract_all (mount : string) (total_members : Z) (callback : bool)
    (i : Z) (members : list TarInfo) (st : restore_state)
    : except unit * restore_state :=
  match members with
  | [] => (Ok (), st)
  | member :: rest =>
      let member := {| name := PosixPath.normpath (name member);
                       typ := typ member |} in
      match Tar.extract (tree st) member mount with
      | Raise e => (Raise e, st)
      | Ok t =>
          let st' := {| tree := t;
                        reported := if callback
                                    then reported st ++ [progress i total_members]
                                    else reported st |} in
          extract_all mount total_members callback (i + 1) rest st'
      end
  end.

(** [restore_archive(archive_path, mount, progress_callback)]: what is
    returned or raised, the state afterwards and what was printed.
    [callback] tells whether a callback was passed. *)
Definition restore_archive (at_path : string → option tarball) (root : node)
    (archive_path mount : string) (callback : bool)
    : except unit * restore_state * list string :=
  let st := {| tree := root; reported := [] |} in
  let archive_path := PosixPath.normpath archive_path in
  let mount := PosixPath.normpath mount in
  if decide (at_path archive_path = None) then
    (Raise (Exn FileNotFoundError ("Backup file not found: " +:+ archive_path)), st, [])
  else
    let '(valid, out) := Op1.is_valid_mount (view root) mount in
    if negb valid then
      (Raise (Exn ValueError ("Invalid mount point: " +:+ mount)), st, out)
    else
      match open_members at_path archive_path with
      | Raise e =>
          (Raise (Exn RuntimeError ("Failed to restore backup: " +:+ exn_msg e)), st, out)
      | Ok members =>
          let total_members := Z.of_nat (length members) in
          match extract_all mount total_members callback 0 members st with
          | (Raise e, st') =>
              (Raise (Exn RuntimeError ("Failed to restore backup: " +:+ exn_msg e)),
               st', out)
          | (Ok _, st') => (Ok (), st', out ++ ["Restore completed successfully."])
          end
      end.

End Backups.

(** ** commands/verify.py *)

Module Verify.
Import Tar.

Definition required_dirs : gset string :=
  list_to_set ["tape"; "album"; "synth"; "drum"].

(** [member.name.split('/')[0]] *)
Definition top_level_dir (member : TarInfo) : string :=
  default "" (head (Py.split "/" (name member))).

(** [verify_backup_structure(archive_path)]. Python fixes no order in
    which a set is iterated: [order] is the one it happens to use. *)
Definition verify_backup_structure (order : gset string → list string)
    (at_path : string → option tarball) (archive_path : string)
    : bool * list string :=
  match open_members at_path archive_path with
  | Raise e => (false, ["Error reading backup archive: " +:+ exn_msg e])
  | Ok members =>
      let found_dirs : gset string := list_to_set (map top_level_dir members) in
      let missing_dirs := required_dirs ∖ found_dirs in
      let issues :=
        if decide (missing_dirs ≠ ∅)
        then ["Missing required directories: " +:+ Py.join ", " (order missing_dirs)]
        else [] in
      let issues :=
        issues ++
        flat_map
          (fun required_dir =>
             let dir_contents :=
               List.filter (fun m => Py.startswith (name m) required_dir) members in
             match dir_contents with
             | [] => ["Directory '" +:+ required_dir +:+ "' is empty"]
             | _ => []
             end)
          (order (required_dirs ∖ missing_dirs)) in
      (bool_decide (length issues = 0%nat), issues)
  end.

End Verify.

(** ** helpers/backup_metadata.py *)

Module Metadata.











End Metadata.

(** ** Concrete devices and archives *)

Module Scenario.
Import Fs Tar.

(** The device of the specification's scenario: the four directories, two
    sides in [album], and a hidden [.trash]. *)
Definition op1_device : node :=
  Dir [ ("tape", Dir []);
        ("album", Dir [("side_a.aif", File "AAAA"); ("side_b.aif", File "BBBB")]);
        ("synth", Dir []);
        ("drum", Dir []);
        (".trash", Dir []) ].

(** The device mounted at [/Volumes/OP-1]. *)
Definition op1_root : node :=
  Dir [ ("Volumes", Dir [("OP-1", op1_device)]) ].

(** The same device without the hidden directory. *)
Definition plain_device : node :=
  Dir [ ("tape", Dir []);
        ("album", Dir [("side_a.aif", File "AAAA"); ("side_b.aif", File "BBBB")]);
        ("synth", Dir []);
        ("drum", Dir []) ].

Definition plain_root : node :=
  Dir [ ("Volumes", Dir [("OP-1", plain_device)]) ].

(** A device with hidden entries below the top level: a hidden directory
    in [tape] and a hidden file in [tape/takes]. *)
Definition device_with_hidden : node :=
  Dir [ ("tape", Dir [ (".cache", Dir [("peaks.bin", File "P")]);
                       ("takes", Dir [(".DS_Store", File "D");
                                      ("one.aif", File "1")]) ]);
        ("album", Dir []);
        ("synth", Dir []);
        ("drum", Dir []) ].

Definition hidden_root : node :=
  Dir [ ("Volumes", Dir [("OP-1", device_with_hidden)]) ].

(** A device that already holds a take of its own, mounted at [/mnt/op1]. *)
Definition target_device : node :=
  Dir [ ("tape", Dir [("old.aif", File "OLD")]);
        ("album", Dir []);
        ("synth", Dir []);
        ("drum", Dir []) ].

Definition target_root : node :=
  Dir [ ("mnt", Dir [("op1", target_device)]) ].

(** An archive of three members. *)
Definition three_members : list TarInfo :=
  [ {| name := "tape"; typ := Directory |};
    {| name := "tape/one.aif"; typ := RegFile "1" |};
    {| name := "tape/two.aif"; typ := RegFile "2" |} ].

(** Where archives lie. *)
Definition one_archive (path : string) (members : list TarInfo)
    : string → option tarball :=
  fun p => if decide (p = path) then Some (Archive members) else None.

End Scenario.

(** ** More of helpers/op1.py: connection and waiting *)

Module Op1Wait.
Import Op1.

(** A call either returns or ends the program through [sys.exit]. *)
Inductive outcome (A : Type) :=
  | Returns (a : A)
  | Exits (status : string).
Arguments Returns {A} a.
Arguments Exits {A} status.

(** [any(is_op1_drive(drive) for drive in drives)]: the drives are tried
    in order until one is accepted. *)
Fixpoint any_op1_drive (os : os_view) (drives : list string) : bool * list string :=
  match drives with
  | [] => (false, [])
  | drive :: rest =>
      let '(found, out) := is_op1_drive os drive in
      if found then (true, out)
      else let '(r, out') := any_op1_drive os rest in (r, out ++ out')
  end.

(** [is_connected()]. Off Windows, [pyusb] is [None] when the module
    [usb.core] cannot be imported and otherwise tells whether
    [usb.core.find] found the device. *)
Definition is_connected (m : machine) (pyusb : option bool)
    : outcome bool * list string :=
  if decide (Mount.system (host m) = Windows) then
    let '(r, out) := any_op1_drive (os m) (get_removable_drives m) in
    (Returns r, out)
  else
    match pyusb with
    | Some found => (Returns found, [])
    | None =>
        (Exits ("On Unix-like systems, this tool requires pyusb. "
                +:+ "Please install it with: pip install pyusb"), [])
    end.

(** [str(n)] for an integer. *)
Definition str (n : Z) : string := DecimalString.NilZero.string_of_int (Z.to_int n).

(** The loop of [wait_for_op1_mount] from the attempt [i] on, with
    [attempts] attempts left. [timeline i] is the machine as the attempt
    [i] finds it. The result comes with what was printed and the number
    of calls of [time.sleep(1)]. *)
Fixpoint wait_loop (timeline : nat → machine) (timeout : Z)
    (attempts : nat) (i : nat) : option string * list string * nat :=
  match attempts with
  | O => (None, ["Timed out waiting for mount."], 0%nat)
  | S rest =>
      let line := "Checking for OP-1 mount (" +:+ str (Z.of_nat i + 1) +:+ "/"
                  +:+ str timeout +:+ ")..." in
      let '(r, out) := find_op1_mount (timeline i) in
      match r with
      | Some mount_point => (Some mount_point, line :: out, 0%nat)
      | None =>
          let '(r', out', sleeps) := wait_loop timeline timeout rest (S i) in
          (r', line :: out ++ out', S sleeps)
      end
  end.

(** [wait_for_op1_mount(timeout)]; [range(timeout)] is empty for a
    timeout that is not positive. An interrupt from the keyboard is not
    part of the model. *)
Definition wait_for_op1_mount (timeline : nat → machine) (timeout : Z)
    : option string * list string * nat :=
  wait_loop timeline timeout (Z.to_nat timeout) 0.

End Op1Wait.

(** ** More of helpers/backups.py *)

Module BackupsMore.
Import Tar.

(** [verify_backup_before_restore(backup_path)] *)
Definition verify_backup_before_restore (order : gset string → list string)
    (at_path : string → option tarball) (backup_path : string)
    : bool * list string :=
  let '(is_valid, issues) :=
    Verify.verify_backup_structure order at_path backup_path in
  (is_valid, issues).

(** *** The progress bar of [generate_archive] *)

Import Fs Backups.






End BackupsMore.

(** ** commands/restore.py: the progress bar *)

Module RestoreCommand.

(** [click]'s progress bar: [update(n)] adds [n] to the position. *)
Record bar := { pos : Z }.

Definition bar_update (b : bar) (n_steps : Z) : bar := {| pos := pos b + n_steps |}.

(** [update_progress(progress)]: the bar is moved by
    [progress - bar.pos]. The steps handed to the bar are recorded. *)
Definition update_progress (st : bar * list Z) (progress : Z) : bar * list Z :=
  let '(b, steps) := st in
  let n_steps := progress - pos b in
  (bar_update b n_steps, steps ++ [n_steps]).

(** The callback called with each reported value in turn, on a bar that
    starts at zero. *)
Definition drive_bar (reported : list Z) : bar * list Z :=
  fold_left update_progress reported ({| pos := 0 |}, []).

End RestoreCommand.

(** ** opie.py: the commands *)

Module Opie.

(** [s.endswith(suffix)] *)
Definition endswith (s suffix : string) : bool :=
  let n := String.length s in
  let k := String.length suffix in
  (k <=? n)%nat && bool_decide (String.substring (n - k) k s = suffix).

(** [s[:-3]] *)
Definition drop_last3 (s : string) : string :=
  String.substring 0 (String.length s - 3) s.

Fixpoint insert_name (x : string) (l : list string) : list string :=
  match l with
  | [] => [x]
  | y :: l' => if String.leb x y then x :: l else y :: insert_name x l'
  end.

(** [rv.sort()] *)
Definition sort_names (l : list string) : list string := foldr insert_name [] l.

(** [list_commands]: [listing] is [os.listdir(plugin_folder)]. *)
Definition list_commands (listing : list string) : list string :=
  sort_names
    (map drop_last3 (List.filter (fun filename => endswith filename ".py") listing)).

End Opie.

(** ** commands/storage.py: counting the patches *)

Module Storage.
Import Fs.

(** [s.lower()] on ASCII letters. *)
Definition lower_char (c : ascii) : ascii :=
  let n := nat_of_ascii c in
  if ((65 <=? n) && (n <=? 90))%nat then ascii_of_nat (n + 32) else c.

Fixpoint lower (s : string) : string :=
  match s with
  | EmptyString => EmptyString
  | String c s' => String (lower_char c) (lower s')
  end.

(** [sub in s] *)
Fixpoint contains (s sub : string) : bool :=
  Py.startswith s sub
  || match s with
     | EmptyString => false
     | String _ s' => contains s' sub
     end.

(** [os.walk(top)] with the [dirs.remove('user')] of the loop body: a
    directory called [user] is not descended into. Of each triple the
    root and the names of the files are kept. *)
Fixpoint walk_skipping_user (top : string) (n : node)
    : list (string * list string) :=
  match n with
  | File _ => []
  | Dir es =>
      (top, map fst (List.filter (fun e => negb (is_dir e.2)) es))
      :: flat_map
           (fun e =>
              if decide (e.1 = "user") then []
              else walk_skipping_user (PosixPath.join top e.1) e.2)
           es
  end.

(** The walk below [folder_path]; [os.walk] yields nothing for a path
    that is no directory. *)
Definition walked (root : node) (folder_path : string)
    : list (string * list string) :=
  match stat root folder_path with
  | Some n => walk_skipping_user folder_path n
  | None => []
  end.

(** [file.lower().endswith('.aif')] *)
Definition is_aif (file : string) : bool := Opie.endswith (lower file) ".aif".

(** The files counted among the triples whose root passes [test]. *)
Definition count_in (test : string → bool)
    (triples : list (string * list string)) : nat :=
  list_sum
    (map (fun t => if test t.1 then length (List.filter is_aif t.2) else 0%nat)
       triples).

Record counts := {
  synth_sampler_files : nat;
  synth_synthesis_files : nat;
  drum_files : nat
}.

(** The three counters after the loop over [['synth', 'drum']]. *)
Definition patch_counts (root : node) (mount_point : string) : counts :=
  let synth := walked root (PosixPath.join mount_point "synth") in
  let drum := walked root (PosixPath.join mount_point "drum") in
  {| synth_sampler_files :=
       count_in (fun r => contains (lower r) "sampling") synth;
     synth_synthesis_files :=
       count_in (fun r => negb (contains (lower r) "sampling")) synth;
     drum_files := count_in (fun _ => true) drum |}.

End Storage.

(** ** helpers/rips.py

    The code as it runs off Windows, where [os.path] is [posixpath] and
    the binary is looked up with [shutil.which] alone. *)

Module Rips.

Fixpoint drop_while {A} (test : A → bool) (l : list A) : list A :=
  match l with
  | [] => []
  | x :: l' => if test x then drop_while test l' else l
  end.

Definition is_slash (c : ascii) : bool := bool_decide (c = "/"%char).

(** [os.path.dirname]: the path up to its last slash, without the
    slashes at the end unless it holds nothing but slashes. *)
Definition dirname (p : string) : string :=
  let reversed_head :=
    drop_while (fun c => negb (is_slash c)) (rev (String.list_ascii_of_string p)) in
  if forallb is_slash reversed_head
  then String.string_of_list_ascii (rev reversed_head)
  else String.string_of_list_ascii (rev (drop_while is_slash reversed_head)).

(** What [check_call] does with a command: it returns, it raises
    [CalledProcessError] for an exit status other than zero, or it raises
    something else, as when the binary cannot be started. The texts are
    those [str(e)] yields. *)
Inductive call_result :=
  | Completed
  | CalledProcessError (msg : string)
  | CallFailed (msg : string).

(** The world outside as [create_rip] meets it, [S] being its states:
    [shutil.which] finding a binary, [os.path.exists], [os.makedirs]
    with its [exist_ok], and [check_call]. *)
Record world (S : Type) := {
  which : S → string → bool;
  file_exists : S → string → bool;
  makedirs : S → string → bool → except unit * S;
  check_call : S → list string → call_result * S
}.
Arguments which {S} w σ name : rename.
Arguments file_exists {S} w σ path : rename.
Arguments makedirs {S} w σ path exist_ok : rename.
Arguments check_call {S} w σ command : rename.

(** What a run leaves behind, in order: lines of [click.echo], on the
    standard output or on the standard error, the prompt of
    [click.pause], and the commands [check_call] was called with. *)
Inductive event :=
  | Echo (line : string)
  | EchoErr (line : string)
  | Pause (info : string)
  | Call (command : list string).

(** How [create_rip] ends: it returns, or the program exits. *)
Inductive ending :=
  | Returned
  | Exited (status : Z).

Section Rip.
Context {S : Type} (w : world S).

(** A computation: from a state to a result or an exception, the state
    afterwards, and the events on the way. *)
Definition M (A : Type) : Type := S → except A * S * list event.

Definition ret {A} (a : A) : M A := fun σ => (Ok a, σ, []).

Definition bind {A B} (m : M A) (k : A → M B) : M B := fun σ =>
  match m σ with
  | (Ok a, σ1, t1) => let '(r, σ2, t2) := k a σ1 in (r, σ2, t1 ++ t2)
  | (Raise e, σ1, t1) => (Raise e, σ1, t1)
  end.

Definition raise {A} (e : exn) : M A := fun σ => (Raise e, σ, []).

Definition emit (ev : event) : M unit := fun σ => (Ok (), σ, [ev]).

Local Notation "m ;; k" := (bind m (fun _ => k))
  (at level 100, k at level 200, right associativity).

(** [get_ffmpeg_binary()] *)
Definition get_ffmpeg_binary : M string := fun σ =>
  if which w σ "ffmpeg" then (Ok "ffmpeg", σ, [])
  else if which w σ "avconv" then (Ok "avconv", σ, [])
  else
    (Raise (Exn OtherError
              ("Neither ffmpeg nor avconv found. Please install ffmpeg:"
               +:+ String Py.nl
                 ("- Windows: run 'winget install FFmpeg' in terminal"
                  +:+ String Py.nl
                    ("- macOS: Use 'brew install ffmpeg'"
                     +:+ String Py.nl
                       "- Linux: Use your package manager (e.g., 'apt install ffmpeg')")))),
     σ, []).

(** The arguments of a command after the binary. *)
Definition arguments (input_file codec output_file : string)
    (codec_flags : list string) : list string :=
  ["-loglevel"; "warning"; "-stats"; "-i"; PosixPath.normpath input_file;
   "-c:a"; codec]
  ++ codec_flags ++ [PosixPath.normpath output_file].

(** [transcode(input_file, codec, output_file, codec_flags)] *)
Definition transcode (input_file codec output_file : string)
    (codec_flags : list string) : M unit := fun σ =>
  match get_ffmpeg_binary σ with
  | (Raise e, σ1, t) =>
      (Raise (Exn RuntimeError ("Error during transcoding: " +:+ exn_msg e)), σ1, t)
  | (Ok binary, σ1, t) =>
      let command := binary :: arguments input_file codec output_file codec_flags in
      match makedirs w σ1 (dirname (PosixPath.normpath output_file)) true with
      | (Raise e, σ2) =>
          (Raise (Exn RuntimeError ("Error during transcoding: " +:+ exn_msg e)),
           σ2, t)
      | (Ok _, σ2) =>
          match check_call w σ2 command with
          | (Completed, σ3) => (Ok (), σ3, t ++ [Call command])
          | (CalledProcessError msg, σ3) =>
              (Raise (Exn RuntimeError ("Transcoding failed: " +:+ msg)),
               σ3, t ++ [Call command])
          | (CallFailed msg, σ3) =>
              (Raise (Exn RuntimeError ("Error during transcoding: " +:+ msg)),
               σ3, t ++ [Call command])
          end
      end
  end.

(** The body of the loop over the sides. *)
Definition rip_side (fullpath albums side : string) : M unit := fun σ =>
  let input_file := PosixPath.join albums (side +:+ ".aif") in
  let flac_output := PosixPath.join fullpath (side +:+ ".flac") in
  if negb (file_exists w σ input_file) then
    raise (Exn FileNotFoundError ("Source file not found: " +:+ input_file)) σ
  else
    (emit (Echo ("Transcoding " +:+ side));;
     transcode input_file "flac" flac_output [];;
     emit (Echo "Creating additional formats...");;
     emit (Echo ("Transcoding " +:+ side +:+ " to ALAC"));;
     transcode flac_output "alac" (PosixPath.join fullpath (side +:+ ".m4a")) [];;
     emit (Echo ("Transcoding " +:+ side +:+ " to MP3 V0"));;
     transcode flac_output "libmp3lame"
       (PosixPath.join fullpath (side +:+ ".mp3")) ["-q:a"; "0"]) σ.

Fixpoint for_each {A} (l : list A) (body : A → M unit) : M unit :=
  match l with
  | [] => ret ()
  | x :: l' => body x;; for_each l' body
  end.

Definition sides : list string := ["side_a"; "side_b"].

(** [os.makedirs(fullpath)], where an existing directory is turned into a
    [ValueError]. *)
Definition make_rip_directory (fullpath : string) : M unit := fun σ =>
  match makedirs w σ fullpath false with
  | (Ok _, σ1) => (Ok (), σ1, [])
  | (Raise e, σ1) =>
      if decide (exn_cls e = FileExistsError)
      then (Raise (Exn ValueError ("Rip directory already exists: " +:+ fullpath)),
            σ1, [])
      else (Raise e, σ1, [])
  end.

(** What [create_rip] does inside its [try]. *)
Definition create_rip_body (RIPS_DIR mount name : string) : M unit :=
  let fullpath := PosixPath.normpath (PosixPath.join RIPS_DIR name) in
  let albums := PosixPath.normpath (PosixPath.join mount "album") in
  make_rip_directory fullpath;;
  emit (Echo ("Writing rips to " +:+ fullpath));;
  for_each sides (rip_side fullpath albums);;
  emit (Echo (String Py.nl "Ripping completed successfully!"));;
  emit (Pause "Press any key to return to op1-REpacker").

(** [create_rip(mount, name)]; [RIPS_DIR] is the constant of the module. *)
Definition create_rip (RIPS_DIR mount name : string) (σ : S)
    : ending * S * list event :=
  match create_rip_body RIPS_DIR mount name σ with
  | (Ok _, σ1, t) => (Returned, σ1, t)
  | (Raise e, σ1, t) =>
      (Exited 1, σ1,
       t ++ [EchoErr ("Error during ripping process: " +:+ exn_msg e)])
  end.

End Rip.

End Rips.

(** * Part II: properties *)

(** ** The metadata store *)

Module MetadataFacts.
Import Metadata.



End MetadataFacts.

(** ** Mount enumeration *)

Module MountFacts.
Import Mount.

Definition macos_line : string :=
  "/dev/disk2s1 on /Volumes/OP-1 (msdos, local, nodev, nosuid)".

Definition linux_line : string :=
  "/dev/sda1 on /media/OP-1 type vfat (rw,nosuid,nodev)".

(** C7: the line of the macOS mount table parses to its device and its
    mount path, and a line without the parenthesised part is dropped; on a
    line of the Linux mount table the group [mount] runs up to the last
    blank before the parenthesis, so the text [ type vfat] ends up in the
    mount path instead of ending it. *)
Theorem get_mount_from_line_examples :
  get_mount_from_line macos_line = Some ("/dev/disk2s1", "/Volumes/OP-1")
  ∧ get_mount_from_line "/dev/sda1 on /media/OP-1 type vfat" = None
  ∧ get_mount_from_line linux_line = Some ("/dev/sda1", "/media/OP-1 type vfat").
Proof. repeat split; vm_compute; reflexivity. Qed.





End MountFacts.

(** ** Device identification *)

Module Op1Facts.
Import U Op1.

(** [d] is listed in [p], its name does not start with a dot, and it is a
    directory. *)
Definition visible_subdir (os : os_view) (p d : string) : Prop :=
  ∃ names, listdir os p = Ok names
           ∧ d ∈ names
           ∧ Py.startswith d "." = false
           ∧ isdir os (PosixPath.join p d) = true.

Definition visible (x : string) : bool := negb (Py.startswith x ".").

Lemma startswith_dot c s :
  Py.startswith (String c s) "." = bool_decide (c = "."%char).
Proof.
  simpl. destruct (decide ("."%char = c)) as [<-|Hne].
  - by destruct s.
  - rewrite bool_decide_eq_false_2; [done|]. intros ->. by apply Hne.
Qed.

Lemma visible_children_ok (l : list string) :
  "" ∉ l →
  Py.filter_raising
    (fun x => c ← Py.first_char x; Ok (bool_decide (c ≠ "."%char))) l
  = Ok (List.filter visible l).
Proof.
  induction l as [|x l IH]; intros Hne; [done|].
  destruct x as [|c s]; [exfalso; apply Hne; left|].
  cbn [Py.filter_raising Py.first_char mbind except_bind].
  rewrite IH by (intros ?; apply Hne; by right).
  cbn [List.filter]. unfold visible at 2. rewrite startswith_dot.
  destruct (decide (c = "."%char)) as [->|Hc].
  - by rewrite bool_decide_eq_false_2, bool_decide_eq_true_2 by auto.
  - by rewrite bool_decide_eq_true_2, bool_decide_eq_false_2.
Qed.


Lemma get_visible_folders_ok (os : os_view) (d : string) (names : list string) :
  listdir os d = Ok names → "" ∉ names →
  get_visible_folders os d
  = Ok (List.filter (fun x => isdir os (PosixPath.join d x))
          (List.filter visible names)).
Proof.
  intros Hl Hne. unfold get_visible_folders, get_visible_children.
  rewrite Hl. cbn [mbind except_bind]. by rewrite visible_children_ok.
Qed.

Lemma get_visible_folders_listed (os : os_view) (d : string) folders :
  get_visible_folders os d = Ok folders →
  ∃ names, listdir os d = Ok names.
Proof.
  unfold get_visible_folders, get_visible_children.
  destruct (listdir os d) as [names|e]; [eauto|done].
Qed.

Lemma base_dirs_elem (d : string) :
  d ∈ OP1_BASE_DIRS ↔ d = "tape" ∨ d = "album" ∨ d = "synth" ∨ d = "drum".
Proof.
  unfold OP1_BASE_DIRS. rewrite elem_of_list_to_set, !elem_of_cons, elem_of_nil.
  tauto.
Qed.

Lemma is_op1_drive_true (os : os_view) (path : string) :
  (is_op1_drive os path).1 = true ↔
  ∃ folders, get_visible_folders os (PosixPath.normpath path) = Ok folders
             ∧ ∀ d, d ∈ OP1_BASE_DIRS → d ∈ folders.
Proof.
  unfold is_op1_drive.
  destruct (get_visible_folders os (PosixPath.normpath path)) as [folders|e].
  - cbn [fst]. rewrite bool_decide_eq_true. split.
    + intros Hsub. exists folders. split; [done|].
      intros d Hd. apply Hsub in Hd. by apply elem_of_list_to_set in Hd.
    + intros (f & [= <-] & Hall) d Hd. apply elem_of_list_to_set. auto.
  - split.
    + by destruct (decide _).
    + by intros (f & ? & _).
Qed.

(** A listing that fails, for whatever reason, is a non-match. *)
Lemma is_op1_drive_error (os : os_view) (path : string) (e : exn) :
  listdir os (PosixPath.normpath path) = Raise e →
  (is_op1_drive os path).1 = false.
Proof.
  intros He. unfold is_op1_drive, get_visible_folders, get_visible_children.
  rewrite He. cbn [mbind except_bind]. by destruct (decide _).
Qed.

Section Fingerprint.
Context (os : os_view) (P : string).

(** A directory never lists an entry with the empty name. *)
Hypothesis names_nonempty :
  ∀ names, listdir os (PosixPath.normpath P) = Ok names → "" ∉ names.

Lemma is_op1_drive_iff_aux :
  (is_op1_drive os P).1 = true ↔
  ∀ d, d ∈ OP1_BASE_DIRS → visible_subdir os (PosixPath.normpath P) d.
Proof using names_nonempty.
  rewrite is_op1_drive_true. split.
  - intros (folders & Hf & Hall) d Hd.
    destruct (get_visible_folders_listed _ _ _ Hf) as [names Hn].
    rewrite (get_visible_folders_ok _ _ _ Hn (names_nonempty _ Hn)) in Hf.
    injection Hf as <-.
    specialize (Hall d Hd). apply list_elem_of_In, filter_In in Hall as [Hall Hdir].
    apply filter_In in Hall as [Hin Hvis].
    exists names. split_and!; [done|by apply list_elem_of_In|
      by apply negb_true_iff in Hvis|done].
  - intros Hall.
    destruct (Hall "tape") as (names & Hn & _); [by apply base_dirs_elem; left|].
    eexists. split; [apply get_visible_folders_ok; eauto|].
    intros d Hd. destruct (Hall d Hd) as (names' & Hn' & Hin & Hvis & Hdir).
    rewrite Hn in Hn'. injection Hn' as <-.
    apply list_elem_of_In, filter_In. split; [|done].
    apply filter_In. split; [by apply list_elem_of_In|].
    unfold visible. by rewrite Hvis.
Qed.

End Fingerprint.

(** C1: the fingerprint test accepts a path exactly when each of the four
    required names is listed in it, does not start with a dot and is a
    directory; hence a second file system that lists at least the same
    names at that path, and in which these entries are still directories,
    is accepted as well. *)
Theorem is_op1_drive_iff :
  ∀ (os : os_view) (P : string),
    (∀ names, listdir os (PosixPath.normpath P) = Ok names → "" ∉ names) →
    ((is_op1_drive os P).1 = true ↔
     ∀ d, d ∈ OP1_BASE_DIRS → visible_subdir os (PosixPath.normpath P) d)
    ∧ (∀ os' : os_view,
         (∀ names, listdir os' (PosixPath.normpath P) = Ok names → "" ∉ names) →
         (∀ names, listdir os (PosixPath.normpath P) = Ok names →
            ∃ names', listdir os' (PosixPath.normpath P) = Ok names'
                      ∧ names ⊆ names') →
         (∀ d, isdir os (PosixPath.join (PosixPath.normpath P) d) = true →
               isdir os' (PosixPath.join (PosixPath.normpath P) d) = true) →
         (is_op1_drive os P).1 = true → (is_op1_drive os' P).1 = true).
Proof.
  intros os P Hne. split; [by apply is_op1_drive_iff_aux|].
  intros os' Hne' Hmore Hdirs.
  rewrite !is_op1_drive_iff_aux by done.
  intros Hall d Hd. destruct (Hall d Hd) as (names & Hn & Hin & Hvis & Hdir).
  destruct (Hmore names Hn) as (names' & Hn' & Hsub).
  exists names'. split_and!; auto.
Qed.

Lemma is_op1_drive_iff_witness :
  ((is_op1_drive (Fs.view Scenario.op1_root) "/Volumes/OP-1").1 = true ↔
   ∀ d, d ∈ OP1_BASE_DIRS →
        visible_subdir (Fs.view Scenario.op1_root)
          (PosixPath.normpath "/Volumes/OP-1") d)
  ∧ (∀ os' : os_view,
       (∀ names, listdir os' (PosixPath.normpath "/Volumes/OP-1") = Ok names →
                 "" ∉ names) →
       (∀ names,
          listdir (Fs.view Scenario.op1_root) (PosixPath.normpath "/Volumes/OP-1")
          = Ok names →
          ∃ names', listdir os' (PosixPath.normpath "/Volumes/OP-1") = Ok names'
                    ∧ names ⊆ names') →
       (∀ d, isdir (Fs.view Scenario.op1_root)
               (PosixPath.join (PosixPath.normpath "/Volumes/OP-1") d) = true →
             isdir os' (PosixPath.join (PosixPath.normpath "/Volumes/OP-1") d) = true) →
       (is_op1_drive (Fs.view Scenario.op1_root) "/Volumes/OP-1").1 = true →
       (is_op1_drive os' "/Volumes/OP-1").1 = true).
Proof.
  apply (is_op1_drive_iff (Fs.view Scenario.op1_root) "/Volumes/OP-1").
  intros names H. vm_compute in H. injection H as <-.
  rewrite !elem_of_cons, elem_of_nil. intros [H|[H|[H|[H|[H|[]]]]]]; discriminate H.
Defined.

(** The mount points [find_op1_mount] goes through, in order. *)
Definition candidates (m : machine) : list string :=
  if decide (Mount.system (host m) = Windows) then get_removable_drives m
  else match (Mount.get_potential_mounts (host m)).1 with
       | Some mounts => map snd mounts
       | None => []
       end.

Lemma first_op1_some os l r :
  (first_op1 os l).1 = Some r ↔
  ∃ l1 l2, l = l1 ++ r :: l2
           ∧ (is_op1_drive os r).1 = true
           ∧ ∀ x, x ∈ l1 → (is_op1_drive os x).1 = false.
Proof.
  induction l as [|x l IH]; cbn [first_op1].
  - split; [done|]. intros (l1 & l2 & Hl & _). by destruct l1.
  - destruct (is_op1_drive os x) as [found out] eqn:Hx.
    destruct found.
    + cbn [fst]. split.
      * intros [= <-]. exists [], l. rewrite Hx. split_and!; [done..|].
        intros y Hy. by apply elem_of_nil in Hy.
      * intros (l1 & l2 & Hl & Hr & Hl1). destruct l1 as [|y l1].
        -- by injection Hl as ->.
        -- injection Hl as Hxy _. subst y.
           specialize (Hl1 x (list_elem_of_here _ _)).
           rewrite Hx in Hl1. done.
    + destruct (first_op1 os l) as [r' out'] eqn:Hl. cbn [fst] in *.
      rewrite IH. split.
      * intros (l1 & l2 & -> & Hr & Hl1). exists (x :: l1), l2.
        split_and!; [done..|]. intros y [->|Hy]%elem_of_cons; [by rewrite Hx|auto].
      * intros (l1 & l2 & Hl' & Hr & Hl1). destruct l1 as [|y l1].
        -- injection Hl' as Hxr _. subst r. rewrite Hx in Hr. done.
        -- injection Hl' as Hxy Hl'. subst y l. exists l1, l2. split_and!; [done..|].
           intros z Hz. apply Hl1. by right.
Qed.


Lemma find_op1_mount_first (m : machine) :
  (find_op1_mount m).1 = (first_op1 (os m) (candidates m)).1.
Proof.
  unfold find_op1_mount, candidates.
  destruct (decide (Mount.system (host m) = Windows)); [done|].
  destruct (Mount.get_potential_mounts (host m)) as [[[|mt mounts]|] out];
    cbn [fst]; try done.
  by destruct (first_op1 _ _).
Qed.


End Op1Facts.

(** ** Structural verification *)

Module VerifyFacts.
Import Tar Verify.

Lemma split_nonempty sep s : Py.split sep s ≠ [].
Proof.
  destruct s as [|c s]; [done|]. simpl.
  destruct (decide (c = sep)); [done|]. by destruct (Py.split sep s).
Qed.

(** The first segment of a name is a prefix of the name. *)
Lemma startswith_first_segment (s : string) :
  Py.startswith s (default "" (head (Py.split "/" s))) = true.
Proof.
  induction s as [|c s IH]; [done|]. simpl.
  destruct (decide (c = "/"%char)); [done|].
  destruct (Py.split "/" s) as [|w ws] eqn:Hs; [by apply split_nonempty in Hs|].
  simpl in *. by rewrite decide_True.
Qed.

Lemma startswith_top_level_dir (m : TarInfo) :
  Py.startswith (name m) (top_level_dir m) = true.
Proof. apply startswith_first_segment. Qed.

Lemma flat_map_nil {A B} (f : A → list B) (l : list A) :
  (∀ x, x ∈ l → f x = []) → flat_map f l = [].
Proof.
  induction l as [|x l IH]; intros H; [done|]. simpl.
  rewrite (H x) by left. apply IH. intros y Hy. apply H. by right.
Qed.

(** A required directory that some member lies under is never reported
    as empty. *)
Lemma found_dir_not_empty (members : list TarInfo) (r : string) :
  r ∈ (list_to_set (map top_level_dir members) : gset string) →
  match List.filter (fun m => Py.startswith (name m) r) members with
  | [] => ["Directory '" +:+ r +:+ "' is empty"]
  | _ => []
  end = [].
Proof.
  intros Hr. apply elem_of_list_to_set, list_elem_of_fmap in Hr as (m & -> & Hm).
  destruct (List.filter _ members) as [|m' l] eqn:Hf; [|done].
  assert (In m (List.filter (fun m0 => Py.startswith (name m0) (top_level_dir m)) members)) as Hin.
  { apply filter_In. split; [by apply list_elem_of_In|].
    apply startswith_top_level_dir. }
  rewrite Hf in Hin. destruct Hin.
Qed.






End VerifyFacts.

(** ** Hidden entries in archives *)

Module ArchiveExamples.
Import Fs Tar Backups Scenario.

(** The members [generate_archive] writes for a mounted device. *)
Definition members_of (root : node) (mount : string) : list TarInfo :=
  match generate_archive root "2024-01-01-000000" mount "/backups" with
  | Ok (_, members) => members
  | Raise _ => []
  end.

(** Some segment of the name starts with a dot. *)
Definition has_hidden_segment (m : TarInfo) : bool :=
  existsb hidden (Py.split "/" (name m)).

(** C3: on the device of the scenario the hidden top-level directory is
    left out and the archive holds exactly the visible tree; on a device
    with hidden entries below the top level the archive holds the file
    inside the hidden directory [tape/.cache] (the walk goes into it) and
    the hidden file of [tape/takes] (the directory is added with all it
    contains), so hidden entries are not skipped at every level. *)
Theorem generate_archive_hidden_entries :
  members_of op1_root "/Volumes/OP-1"
  = [ {| name := "tape"; typ := Directory |};
      {| name := "album"; typ := Directory |};
      {| name := "album/side_a.aif"; typ := RegFile "AAAA" |};
      {| name := "album/side_b.aif"; typ := RegFile "BBBB" |};
      {| name := "synth"; typ := Directory |};
      {| name := "drum"; typ := Directory |} ]
  ∧ members_of hidden_root "/Volumes/OP-1"
    = [ {| name := "tape"; typ := Directory |};
        {| name := "tape/takes"; typ := Directory |};
        {| name := "tape/takes/.DS_Store"; typ := RegFile "D" |};
        {| name := "tape/takes/one.aif"; typ := RegFile "1" |};
        {| name := "tape/.cache/peaks.bin"; typ := RegFile "P" |};
        {| name := "tape/takes/one.aif"; typ := RegFile "1" |};
        {| name := "album"; typ := Directory |};
        {| name := "synth"; typ := Directory |};
        {| name := "drum"; typ := Directory |} ]
  ∧ List.filter has_hidden_segment (members_of hidden_root "/Volumes/OP-1")
    = [ {| name := "tape/takes/.DS_Store"; typ := RegFile "D" |};
        {| name := "tape/.cache/peaks.bin"; typ := RegFile "P" |} ].
Proof. repeat split; vm_compute; reflexivity. Qed.

End ArchiveExamples.

(** ** Paths as text and as sequences of names *)

Module PathFacts.
Import Fs.

Lemma split_cons_sep sep s : Py.split sep (String sep s) = "" :: Py.split sep s.
Proof. simpl. by rewrite decide_True. Qed.

Lemma split_cons_other sep c s :
  c ≠ sep →
  Py.split sep (String c s)
  = String c (default "" (head (Py.split sep s))) :: tail (Py.split sep s).
Proof.
  intros Hc. simpl. rewrite decide_False by done.
  destruct (Py.split sep s) eqn:Hs; [by apply VerifyFacts.split_nonempty in Hs|done].
Qed.

(** Splitting distributes over a separator. *)
Lemma split_app sep a b :
  Py.split sep (a +:+ String sep b) = Py.split sep a ++ Py.split sep b.
Proof.
  induction a as [|c a IH].
  - change ("" +:+ String sep b) with (String sep b). by rewrite split_cons_sep.
  - change (String c a +:+ String sep b) with (String c (a +:+ String sep b)).
    destruct (decide (c = sep)) as [->|Hc].
    + by rewrite !split_cons_sep, IH.
    + rewrite !split_cons_other, IH by done.
      destruct (Py.split sep a) eqn:Ha; [by apply VerifyFacts.split_nonempty in Ha|done].
Qed.

Lemma split_slash_free s : slash_free s = true → Py.split "/" s = [s].
Proof.
  induction s as [|c s IH]; [done|]. simpl.
  intros [Hc Hs]%andb_true_iff. apply bool_decide_eq_true in Hc.
  rewrite decide_False by done. by rewrite IH.
Qed.

Lemma split_slash_free_all s : Forall (fun c => slash_free c = true) (Py.split "/" s).
Proof.
  induction s as [|c s IH]; [by repeat constructor|]. simpl.
  destruct (decide (c = "/"%char)) as [->|Hc]; [by constructor|].
  destruct (Py.split "/" s) as [|w ws] eqn:Hs; [by apply VerifyFacts.split_nonempty in Hs|].
  inversion IH as [|?? Hw Hws]; subst. constructor; [|done].
  simpl. by rewrite bool_decide_eq_true_2.
Qed.

Lemma join_cons sep w l :
  l ≠ [] → Py.join sep (w :: l) = w +:+ sep +:+ Py.join sep l.
Proof. by destruct l. Qed.

Lemma string_app_cons c (a b : string) : String c a +:+ b = String c (a +:+ b).
Proof. reflexivity. Qed.

Lemma string_app_nil_l (b : string) : "" +:+ b = b.
Proof. reflexivity. Qed.

Lemma string_app_assoc (a b c : string) : (a +:+ b) +:+ c = a +:+ (b +:+ c).
Proof.
  induction a as [|x a IH]; [done|]. by rewrite !string_app_cons, IH.
Qed.

Lemma string_app_nil_r (a : string) : a +:+ "" = a.
Proof.
  induction a as [|x a IH]; [done|]. by rewrite string_app_cons, IH.
Qed.

Lemma join_snoc sep l w :
  l ≠ [] → Py.join sep (l ++ [w]) = Py.join sep l +:+ sep +:+ w.
Proof.
  induction l as [|x l IH]; [done|]. intros _.
  destruct l as [|y l]; [done|].
  change ((x :: y :: l) ++ [w]) with (x :: ((y :: l) ++ [w])).
  rewrite join_cons by done. rewrite IH by done.
  rewrite (join_cons sep x (y :: l)) by done.
  by rewrite !string_app_assoc.
Qed.

(** Joining names without a slash and splitting again gives the names. *)
Lemma split_join l :
  l ≠ [] → Forall (fun c => slash_free c = true) l →
  Py.split "/" (Py.join "/" l) = l.
Proof.
  induction l as [|w l IH]; [done|]. intros _ Hall.
  inversion Hall as [|?? Hw Hl]; subst.
  destruct l as [|y l]; [by apply split_slash_free|].
  rewrite join_cons by done.
  change (w +:+ "/" +:+ Py.join "/" (y :: l))
    with (w +:+ String "/" (Py.join "/" (y :: l))).
  rewrite split_app, split_slash_free by done. by rewrite IH.
Qed.

Lemma clean_name_spec s :
  clean_name s = true ↔ s ≠ "" ∧ s ≠ "." ∧ s ≠ ".." ∧ slash_free s = true.
Proof.
  unfold clean_name. rewrite !andb_true_iff, !bool_decide_eq_true. tauto.
Qed.

(** Resolution walks through clean names one by one. *)
Lemma resolve_clean acc q :
  Forall (fun c => clean_name c = true) q →
  fold_left resolve_step q acc = rev q ++ acc.
Proof.
  revert acc. induction q as [|c q IH]; intros acc Hall; [done|].
  inversion Hall as [|?? Hc Hq]; subst.
  apply clean_name_spec in Hc as (H1 & H2 & H3 & _).
  simpl. unfold resolve_step at 2.
  rewrite decide_False by (intros [?|?]; done).
  rewrite decide_False by done.
  rewrite IH by done. by rewrite <- app_assoc.
Qed.

Lemma clean_slash_free q :
  Forall (fun c => clean_name c = true) q →
  Forall (fun c => slash_free c = true) q.
Proof.
  intros H. eapply Forall_impl; [done|].
  intros c Hc. by apply clean_name_spec in Hc as (_ & _ & _ & ?).
Qed.

Lemma components_clean q :
  q ≠ [] → Forall (fun c => clean_name c = true) q →
  components (Py.join "/" q) = q.
Proof.
  intros Hq Hall. unfold components.
  rewrite split_join by auto using clean_slash_free.
  rewrite resolve_clean by done. by rewrite app_nil_r, rev_involutive.
Qed.

(** The first character of joined clean names is not a slash. *)
Lemma join_clean_head q :
  q ≠ [] → Forall (fun c => clean_name c = true) q →
  ∃ c s, Py.join "/" q = String c s ∧ c ≠ "/"%char.
Proof.
  intros Hq Hall. destruct q as [|w q]; [done|].
  inversion Hall as [|?? Hw _]; subst.
  apply clean_name_spec in Hw as (Hne & _ & _ & Hsf).
  destruct w as [|c w]; [done|]. simpl in Hsf.
  apply andb_true_iff in Hsf as [Hc _]. apply bool_decide_eq_true in Hc.
  destruct q; simpl; eauto.
Qed.

Lemma startswith_slash_head c s :
  Py.startswith (String c s) "/" = bool_decide (c = "/"%char).
Proof.
  simpl. destruct (decide ("/"%char = c)) as [<-|Hne].
  - by destruct s.
  - rewrite bool_decide_eq_false_2; [done|]. by intros ->.
Qed.

(** A text whose reverse starts with a slash ends with one. *)
Lemma ends_with_slash a :
  Py.startswith (String.string_of_list_ascii (rev (String.list_ascii_of_string a))) "/" = true →
  ∃ a', a = a' +:+ "/".
Proof.
  intros H.
  destruct (rev (String.list_ascii_of_string a)) as [|c l] eqn:Hr; [done|].
  simpl in H. destruct (decide ("/"%char = c)) as [<-|]; [|done].
  exists (String.string_of_list_ascii (rev l)).
  rewrite <- (String.string_of_list_ascii_of_string a).
  rewrite <- (rev_involutive (String.list_ascii_of_string a)), Hr. simpl.
  generalize (rev l). clear. intros l.
  induction l as [|x l IH]; [done|]. simpl. by rewrite string_app_cons, IH.
Qed.

Lemma split_trailing_slash a :
  Py.split "/" (a +:+ "/") = Py.split "/" a ++ [""].
Proof. by rewrite (split_app "/"%char a ""). Qed.

Lemma fold_resolve_app l1 l2 acc :
  fold_left resolve_step (l1 ++ l2) acc
  = fold_left resolve_step l2 (fold_left resolve_step l1 acc).
Proof. apply fold_left_app. Qed.

(** Below a directory [a], the relative path made of the clean names [q]
    resolves to the names of [a] followed by [q]. *)
Lemma components_join a q :
  q ≠ [] → Forall (fun c => clean_name c = true) q →
  components (PosixPath.join a (Py.join "/" q)) = components a ++ q.
Proof.
  intros Hq Hall.
  destruct (join_clean_head q Hq Hall) as (c & s & Hj & Hc).
  unfold PosixPath.join. rewrite Hj, startswith_slash_head.
  rewrite bool_decide_eq_false_2 by done. rewrite <- Hj.
  destruct (decide (a = "")) as [->|Ha]; [by rewrite components_clean|].
  destruct (Py.startswith _ "/") eqn:Hend.
  - apply ends_with_slash in Hend as [a' ->].
    rewrite string_app_assoc.
    change ("/" +:+ Py.join "/" q) with (String "/" (Py.join "/" q)).
    unfold components.
    rewrite split_app, split_trailing_slash, split_join
      by auto using clean_slash_free.
    rewrite !fold_resolve_app, resolve_clean by done. simpl.
    unfold resolve_step at 2. rewrite decide_True by (by left).
    by rewrite rev_app_distr, rev_involutive.
  - change (a +:+ "/" +:+ Py.join "/" q) with (a +:+ String "/" (Py.join "/" q)).
    unfold components.
    rewrite split_app, split_join by auto using clean_slash_free.
    rewrite fold_resolve_app, resolve_clean by done.
    by rewrite rev_app_distr, rev_involutive.
Qed.

Lemma components_join_name a c :
  clean_name c = true →
  components (PosixPath.join a c) = components a ++ [c].
Proof.
  intros Hc. apply (components_join a [c]); [done|by constructor].
Qed.

(** *** Normal forms of [normpath] *)

(** A segment [normpath] keeps. *)
Definition seg_ok (c : string) : Prop := c ≠ "" ∧ c ≠ "." ∧ slash_free c = true.

(** The segments [normpath] ends with, [k] being the number of leading
    slashes: [..] occurs only in front, and only in a relative path. *)
Definition normal (k : nat) (comps : list string) : Prop :=
  Forall seg_ok comps
  ∧ (k ≠ 0%nat → ".." ∉ comps)
  ∧ (k = 0%nat → ∃ j rest, comps = replicate j ".." ++ rest ∧ ".." ∉ rest).

(** The same for [new_comps] held in reverse. *)
Definition normal_rev (k : nat) (acc : list string) : Prop :=
  Forall seg_ok acc
  ∧ (k ≠ 0%nat → ".." ∉ acc)
  ∧ (k = 0%nat → ∃ j rest, acc = rest ++ replicate j ".." ∧ ".." ∉ rest).

Lemma rev_replicate {A} (x : A) j : rev (replicate j x) = replicate j x.
Proof.
  induction j as [|j IH]; [done|]. simpl. rewrite IH.
  clear IH. induction j as [|j IH]; [done|]. simpl. by rewrite IH.
Qed.

Lemma elem_of_rev {A} (x : A) l : x ∈ rev l ↔ x ∈ l.
Proof. rewrite !list_elem_of_In. symmetry. apply in_rev. Qed.

Lemma normal_of_rev k acc : normal_rev k acc → normal k (rev acc).
Proof.
  intros (Hall & Hk & H0). split_and!.
  - apply Forall_forall. intros x Hx. rewrite elem_of_rev in Hx.
    rewrite Forall_forall in Hall. by apply Hall.
  - intros Hne Hin. rewrite elem_of_rev in Hin. by apply (Hk Hne).
  - intros Hz. destruct (H0 Hz) as (j & rest & -> & Hrest).
    exists j, (rev rest). rewrite rev_app_distr, rev_replicate. split; [done|].
    intros Hin. by rewrite elem_of_rev in Hin.
Qed.

Lemma normal_rev_tail k acc : normal_rev k acc → normal_rev k (tail acc).
Proof.
  intros (Hall & Hk & H0). destruct acc as [|a acc]; [done|]. simpl.
  inversion Hall as [|?? Ha Hacc]; subst. split_and!; [done|..].
  - intros Hne Hin. apply (Hk Hne). by right.
  - intros Hz. destruct (H0 Hz) as (j & rest & Heq & Hrest).
    destruct rest as [|r rest].
    + destruct j as [|j]; [done|]. simpl in Heq. injection Heq as _ ->.
      by exists j, [].
    + simpl in Heq. injection Heq as _ ->. exists j, rest. split; [done|].
      intros Hin. apply Hrest. by right.
Qed.

Lemma normpath_comps_normal_rev k l acc :
  Forall (fun c => slash_free c = true) l →
  normal_rev k acc →
  ∃ acc', PosixPath.normpath_comps k acc l = rev acc' ∧ normal_rev k acc'.
Proof.
  revert acc. induction l as [|c l IH]; intros acc Hl Hacc; [by exists acc|].
  inversion Hl as [|?? Hc Hl']; subst. simpl.
  destruct (decide (c = "" ∨ c = ".")) as [|Hskip]; [by apply IH|].
  destruct (decide _) as [Hpush|Hpop].
  - apply IH; [done|]. destruct Hacc as (Hall & Hk & H0). split_and!.
    + constructor; [|done]. split_and!; [..|done]; intros ->; apply Hskip; auto.
    + intros Hne [<-|Hin]%elem_of_cons; [|by apply (Hk Hne)].
      destruct Hpush as [?|[[? _]|Hhead]]; [done..|].
      destruct acc as [|a acc]; [done|]. injection Hhead as ->.
      apply (Hk Hne). by left.
    + intros Hz. destruct (H0 Hz) as (j & rest & -> & Hrest).
      destruct (decide (c = "..")) as [->|Hc'].
      * destruct rest as [|r rest]; [by exists (S j), []|].
        destruct Hpush as [?|[[_ ?]|Hhead]]; [done..|].
        injection Hhead as ->. exfalso. apply Hrest. by left.
      * exists j, (c :: rest). split; [done|].
        intros [?|?]%elem_of_cons; [done|by apply Hrest].
  - apply IH; [done|]. by apply normal_rev_tail.
Qed.

(** What [normpath] computes from the segments of a path is normal. *)
Lemma normpath_comps_normal k l :
  Forall (fun c => slash_free c = true) l →
  normal k (PosixPath.normpath_comps k [] l).
Proof.
  intros Hl.
  destruct (normpath_comps_normal_rev k l [] Hl) as (acc & -> & Hacc).
  - split_and!; [done|by intros _ ?%elem_of_nil|].
    intros _. exists 0%nat, []. split; [done|by intros ?%elem_of_nil].
  - by apply normal_of_rev.
Qed.

Lemma normpath_comps_keep k l acc :
  Forall seg_ok l →
  (k ≠ 0%nat → ".." ∉ l) →
  (k = 0%nat → ∃ j rest, l = replicate j ".." ++ rest ∧ (".." ∉ rest)
                         ∧ (j = 0%nat ∨ acc = [] ∨ head acc = Some "..")) →
  PosixPath.normpath_comps k acc l = rev acc ++ l.
Proof.
  revert acc. induction l as [|c l IH]; intros acc Hall Hk H0.
  { simpl. by rewrite app_nil_r. }
  inversion Hall as [|?? (Hc1 & Hc2 & Hc3) Hl]; subst. simpl.
  rewrite decide_False by (intros [?|?]; done).
  assert (c ≠ ".." ∨ (k = 0%nat ∧ acc = []) ∨ head acc = Some "..") as Hpush.
  { destruct (decide (c = "..")) as [->|]; [|by left]. right.
    destruct (decide (k = 0%nat)) as [Hz|Hnz].
    - destruct (H0 Hz) as (j & rest & Heq & Hrest & Hj).
      destruct j as [|j].
      + simpl in Heq. subst rest. exfalso. apply Hrest. by left.
      + destruct Hj as [?|[?|?]]; [done|by left|by right].
    - exfalso. apply (Hk Hnz). by left. }
  rewrite decide_True by done.
  rewrite IH; [by simpl; rewrite <- app_assoc|done|..].
  - intros Hnz Hin. apply (Hk Hnz). by right.
  - intros Hz. destruct (H0 Hz) as (j & rest & Heq & Hrest & Hj).
    destruct j as [|j].
    + simpl in Heq. subst rest. exists 0%nat, l. split_and!; [done| |by left].
      intros Hin. apply Hrest. by right.
    + simpl in Heq. injection Heq as -> ->. exists j, rest.
      split_and!; [done..|]. right. by right.
Qed.

(** On normal segments the loop of [normpath] changes nothing. *)
Lemma normpath_comps_fix k comps :
  normal k comps → PosixPath.normpath_comps k [] comps = comps.
Proof.
  intros (Hall & Hk & H0). rewrite normpath_comps_keep; [done..|].
  intros Hz. destruct (H0 Hz) as (j & rest & ? & ?). exists j, rest.
  split_and!; [done..|]. right. by left.
Qed.

(** What [normpath] returns for [k] leading slashes and the segments
    [comps]. *)
Definition rendered (k : nat) (comps : list string) : string :=
  if decide (k = 0%nat ∧ comps = []) then "."
  else PosixPath.slashes k +:+ Py.join "/" comps.

Lemma join_seg_head comps :
  comps ≠ [] → Forall seg_ok comps →
  ∃ c s, Py.join "/" comps = String c s ∧ c ≠ "/"%char.
Proof.
  intros Hq Hall. destruct comps as [|w q]; [done|].
  inversion Hall as [|?? (Hne & _ & Hsf) _]; subst.
  destruct w as [|c w]; [done|]. simpl in Hsf.
  apply andb_true_iff in Hsf as [Hc _]. apply bool_decide_eq_true in Hc.
  destruct q; simpl; eauto.
Qed.

(** Joined segments never start with a slash. *)
Lemma join_seg_no_slash comps :
  Forall seg_ok comps → Py.startswith (Py.join "/" comps) "/" = false.
Proof.
  intros Hall. destruct comps as [|w q]; [done|].
  destruct (join_seg_head (w :: q)) as (c & s & -> & Hc); [done..|].
  rewrite startswith_slash_head. by apply bool_decide_eq_false_2.
Qed.

Lemma split_join_seg comps :
  Forall seg_ok comps →
  Py.split "/" (Py.join "/" comps) = match comps with [] => [""] | _ => comps end.
Proof.
  intros Hall. destruct comps as [|w q]; [done|].
  apply split_join; [done|]. eapply Forall_impl; [done|]. by intros c (_ & _ & ?).
Qed.

Lemma normpath_comps_skip k acc l :
  PosixPath.normpath_comps k acc ("" :: l) = PosixPath.normpath_comps k acc l.
Proof. reflexivity. Qed.

Lemma normpath_comps_segments k comps :
  normal k comps →
  PosixPath.normpath_comps k [] (match comps with [] => [""] | _ => comps end)
  = comps.
Proof.
  intros Hn. destruct comps as [|w q]; [by rewrite normpath_comps_skip|].
  by apply normpath_comps_fix.
Qed.

(** A rendered normal form is left as it is. *)
Lemma normpath_rendered k comps :
  (k ≤ 2)%nat → normal k comps →
  PosixPath.normpath (rendered k comps) = rendered k comps.
Proof.
  intros Hk Hn. unfold rendered.
  destruct (decide (k = 0%nat ∧ comps = [])) as [|Hne]; [done|].
  pose proof Hn as (Hall & _ & _).
  pose proof (join_seg_no_slash comps Hall) as Hj.
  pose proof (split_join_seg comps Hall) as Hs.
  pose proof (normpath_comps_segments k comps Hn) as Hc.
  unfold PosixPath.normpath.
  destruct k as [|[|[|k]]]; [| | |lia]; cbn [PosixPath.slashes].
  - rewrite string_app_nil_l.
    destruct (join_seg_head comps) as (c & s & Heq & Hc');
      [by intros ->; apply Hne|done|].
    rewrite decide_False by (by rewrite Heq).
    rewrite Hj, Hs, Hc, string_app_nil_l.
    by rewrite decide_False by (by rewrite Heq).
  - rewrite string_app_cons, string_app_nil_l.
    rewrite decide_False by done.
    replace (Py.startswith (String "/" (Py.join "/" comps)) "/") with true
      by (by destruct (Py.join "/" comps)).
    replace (Py.startswith (String "/" (Py.join "/" comps)) "//")
      with (Py.startswith (Py.join "/" comps) "/") by done.
    rewrite Hj. cbn [andb].
    rewrite split_cons_sep, Hs, normpath_comps_skip, Hc.
    cbn [PosixPath.slashes]. rewrite string_app_cons, string_app_nil_l.
    by rewrite decide_False.
  - rewrite !string_app_cons, string_app_nil_l.
    rewrite decide_False by done.
    replace (Py.startswith (String "/" (String "/" (Py.join "/" comps))) "/")
      with true by done.
    replace (Py.startswith (String "/" (String "/" (Py.join "/" comps))) "//")
      with true by (by destruct (Py.join "/" comps)).
    replace (Py.startswith (String "/" (String "/" (Py.join "/" comps))) "///")
      with (Py.startswith (Py.join "/" comps) "/") by done.
    rewrite Hj. cbn [andb negb].
    rewrite !split_cons_sep, Hs, !normpath_comps_skip, Hc.
    cbn [PosixPath.slashes]. rewrite !string_app_cons, string_app_nil_l.
    by rewrite decide_False.
Qed.

(** Every result of [normpath] is a rendered normal form. *)
Lemma normpath_is_rendered p :
  ∃ k comps, (k ≤ 2)%nat ∧ normal k comps
             ∧ PosixPath.normpath p = rendered k comps.
Proof.
  unfold PosixPath.normpath.
  destruct (decide (p = "")) as [|Hp].
  { exists 0%nat, []. split_and!; [lia| |done].
    split_and!; [done|by intros _ ?%elem_of_nil|].
    intros _. exists 0%nat, []. split; [done|by intros ?%elem_of_nil]. }
  set (k := if Py.startswith p "/" then _ else _).
  set (comps := PosixPath.normpath_comps k [] (Py.split "/" p)).
  assert (normal k comps) as Hn
    by (apply normpath_comps_normal, split_slash_free_all).
  exists k, comps. split_and!; [|done|].
  - subst k. destruct (Py.startswith p "/"); [destruct (_ && _)|]; lia.
  - unfold rendered. destruct (decide (k = 0%nat ∧ comps = [])) as [[-> ->]|Hne].
    + done.
    + rewrite decide_False; [done|].
      destruct k as [|k]; [|done]. cbn [PosixPath.slashes].
      rewrite string_app_nil_l.
      destruct (join_seg_head comps) as (c & s & -> & _);
        [by intros ->; apply Hne|by destruct Hn|done].
Qed.

(** [normpath] is idempotent. *)
Lemma normpath_idempotent p :
  PosixPath.normpath (PosixPath.normpath p) = PosixPath.normpath p.
Proof.
  destruct (normpath_is_rendered p) as (k & comps & Hk & Hn & ->).
  by apply normpath_rendered.
Qed.

Lemma clean_seg_ok q :
  Forall (fun c => clean_name c = true) q → Forall seg_ok q.
Proof.
  intros H. eapply Forall_impl; [done|].
  intros c (? & ? & _ & ?)%clean_name_spec. by split_and!.
Qed.

Lemma clean_normal q :
  Forall (fun c => clean_name c = true) q → normal 0 q.
Proof.
  intros H. split_and!; [by apply clean_seg_ok|done|].
  intros _. exists 0%nat, q. split; [done|].
  intros Hin. rewrite Forall_forall in H.
  by apply H, clean_name_spec in Hin as (_ & _ & ? & _).
Qed.

(** A relative path of clean names is left as it is. *)
Lemma normpath_clean q :
  q ≠ [] → Forall (fun c => clean_name c = true) q →
  PosixPath.normpath (Py.join "/" q) = Py.join "/" q.
Proof.
  intros Hq Hall.
  pose proof (normpath_rendered 0 q ltac:(lia) (clean_normal q Hall)) as H.
  unfold rendered in H. rewrite decide_False in H by (by intros [_ ?]).
  cbn [PosixPath.slashes] in H. by rewrite string_app_nil_l in H.
Qed.

End PathFacts.

(** ** Refusing a restore *)

Module RefusalFacts.
Import Fs Tar Backups Op1 PathFacts.

Lemma is_op1_drive_normpath (os : os_view) (m : string) :
  is_op1_drive os (PosixPath.normpath m) = is_op1_drive os m.
Proof. unfold is_op1_drive. by rewrite normpath_idempotent. Qed.

Lemma is_valid_mount_normpath (os : os_view) (m : string) :
  is_valid_mount os (PosixPath.normpath m) = is_valid_mount os m.
Proof. unfold is_valid_mount. by rewrite normpath_idempotent. Qed.

(** On a tree, a path that does not exist cannot be listed, so the test
    for existence in [is_valid_mount] adds nothing to [is_op1_drive]. *)
Lemma is_valid_mount_is_op1_drive (root : node) (m : string) :
  (is_valid_mount (view root) m).1 = (is_op1_drive (view root) m).1.
Proof.
  unfold is_valid_mount. rewrite is_op1_drive_normpath.
  destruct (path_exists (view root) (PosixPath.normpath m)) eqn:Hex; [done|].
  symmetry. eapply Op1Facts.is_op1_drive_error.
  cbn [listdir view]. unfold scandir.
  cbn [path_exists view] in Hex.
  destruct (stat root (PosixPath.normpath m)); [done|]. reflexivity.
Qed.

(** C4: a restore from a path where no archive lies raises
    [FileNotFoundError], and a restore onto a mount path that the
    fingerprint test of [is_op1_drive] rejects raises [ValueError]; in
    both cases the tree is left as it was and no progress is reported.
    The validity check of the mount is the fingerprint test. *)
Theorem restore_archive_refused :
  ∀ (at_path : string → option tarball) (root : node)
    (archive_path mount : string) (callback : bool),
    (at_path (PosixPath.normpath archive_path) = None →
       restore_archive at_path root archive_path mount callback
       = (Raise (Exn FileNotFoundError
                   ("Backup file not found: " +:+ PosixPath.normpath archive_path)),
          {| tree := root; reported := [] |}, []))
    ∧ (at_path (PosixPath.normpath archive_path) ≠ None →
       (is_op1_drive (view root) mount).1 = false →
       ∃ out,
         restore_archive at_path root archive_path mount callback
         = (Raise (Exn ValueError
                     ("Invalid mount point: " +:+ PosixPath.normpath mount)),
            {| tree := root; reported := [] |}, out))
    ∧ (is_valid_mount (view root) mount).1 = (is_op1_drive (view root) mount).1.
Proof.
  intros at_path root archive_path mount callback. split_and!.
  - intros Hnone. unfold restore_archive. by rewrite decide_True.
  - intros Hsome Hbad. unfold restore_archive. rewrite decide_False by done.
    rewrite is_valid_mount_normpath.
    pose proof (is_valid_mount_is_op1_drive root mount) as Hv.
    rewrite Hbad in Hv.
    destruct (is_valid_mount (view root) mount) as [valid out].
    cbn [fst] in Hv. subst valid. by exists out.
  - apply is_valid_mount_is_op1_drive.
Qed.

End RefusalFacts.

(** ** Rounding *)

Module FloatFacts.
Import PyFloat.

(** [den * 2 ^ e <= num], for an exponent of either sign. *)
Definition above_pow2 (num den e : Z) : Prop :=
  if 0 <=? e then den * 2 ^ e <= num else den <= num * 2 ^ (- e).

Lemma pow2_le_spec num den e : pow2_le num den e = true ↔ above_pow2 num den e.
Proof.
  unfold pow2_le, above_pow2. destruct (0 <=? e); apply Z.leb_le.
Qed.

Lemma pow2_pos e : 0 <= e → 0 < 2 ^ e.
Proof. intros. by apply Z.pow_pos_nonneg. Qed.

Lemma pow2_split a b : 0 <= a → 0 <= b → 2 ^ (a + b) = 2 ^ a * 2 ^ b.
Proof. intros. by apply Z.pow_add_r. Qed.

(** The quotient lies between the powers of two around the difference of
    the logarithms. *)
Lemma log2_difference_bounds num den :
  0 < num → 0 < den →
  above_pow2 num den (Z.log2 num - Z.log2 den - 1)
  ∧ ¬ above_pow2 num den (Z.log2 num - Z.log2 den + 1).
Proof.
  intros Hnum Hden.
  pose proof (Z.log2_spec num Hnum) as [Ha1 Ha2].
  pose proof (Z.log2_spec den Hden) as [Hb1 Hb2].
  pose proof (Z.log2_nonneg num) as Ha0.
  pose proof (Z.log2_nonneg den) as Hb0.
  set (a := Z.log2 num) in *. set (b := Z.log2 den) in *.
  unfold Z.succ in *. unfold above_pow2. split.
  - destruct (0 <=? a - b - 1) eqn:Hs.
    + apply Z.leb_le in Hs.
      assert (2 ^ a = 2 ^ (b + 1) * 2 ^ (a - b - 1)) as Heq
        by (rewrite <- pow2_split by lia; f_equal; lia).
      pose proof (pow2_pos (a - b - 1) Hs). nia.
    + apply Z.leb_gt in Hs.
      assert (2 ^ (b + 1) = 2 ^ a * 2 ^ (- (a - b - 1))) as Heq
        by (rewrite <- pow2_split by lia; f_equal; lia).
      pose proof (pow2_pos (- (a - b - 1)) ltac:(lia)). nia.
  - destruct (0 <=? a - b + 1) eqn:Hs.
    + apply Z.leb_le in Hs.
      assert (2 ^ (a + 1) = 2 ^ b * 2 ^ (a - b + 1)) as Heq
        by (rewrite <- pow2_split by lia; f_equal; lia).
      pose proof (pow2_pos (a - b + 1) Hs). nia.
    + apply Z.leb_gt in Hs.
      assert (2 ^ b = 2 ^ (a + 1) * 2 ^ (- (a - b + 1))) as Heq
        by (rewrite <- pow2_split by lia; f_equal; lia).
      pose proof (pow2_pos (- (a - b + 1)) ltac:(lia)). nia.
Qed.

(** [floor_log2] is the logarithm of the quotient, rounded down. *)
Lemma floor_log2_spec num den :
  0 < num → 0 < den →
  above_pow2 num den (floor_log2 num den)
  ∧ ¬ above_pow2 num den (floor_log2 num den + 1).
Proof.
  intros Hnum Hden.
  destruct (log2_difference_bounds num den Hnum Hden) as [Hlo Hhi].
  unfold floor_log2.
  destruct (pow2_le num den (Z.log2 num - Z.log2 den)) eqn:Hd.
  - apply pow2_le_spec in Hd. by split.
  - split; [done|].
    replace (Z.log2 num - Z.log2 den - 1 + 1) with (Z.log2 num - Z.log2 den) by lia.
    intros H. apply pow2_le_spec in H. congruence.
Qed.

(** Quotients below [2 ^ 52]: the rounded number is [m / 2 ^ s] with [s]
    positive and [m] the quotient scaled into [[2 ^ 52, 2 ^ 53)] and
    rounded to the nearest integer. *)
Lemma round_ratio_spec num den :
  0 < num → 0 < den → num < den * 2 ^ 52 →
  let s := - expo (round_ratio num den) in
  0 < s
  ∧ den * 2 ^ 52 <= num * 2 ^ s < den * 2 ^ 53
  ∧ mant (round_ratio num den) = nearest_even (num * 2 ^ s) den.
Proof.
  intros Hnum Hden Hsmall.
  destruct (floor_log2_spec num den Hnum Hden) as [Hlo Hhi].
  unfold round_ratio. cbn [expo mant].
  set (E := floor_log2 num den) in *.
  assert (E <= 51) as HE.
  { destruct (Z_le_gt_dec E 51) as [|Hbig]; [done|]. exfalso.
    unfold above_pow2 in Hlo. rewrite (proj2 (Z.leb_le 0 E)) in Hlo by lia.
    assert (2 ^ E = 2 ^ 52 * 2 ^ (E - 52)) as Heq
      by (rewrite <- pow2_split by lia; f_equal; lia).
    pose proof (pow2_pos (E - 52) ltac:(lia)). nia. }
  replace (- (E - 52)) with (52 - E) by lia.
  rewrite (Z.max_r 0 (52 - E)) by lia. rewrite (Z.max_l 0 (E - 52)) by lia.
  rewrite Z.pow_0_r, Z.mul_1_r. split_and!; [lia| | |done].
  - unfold above_pow2 in Hlo. destruct (0 <=? E) eqn:Hs.
    + apply Z.leb_le in Hs.
      assert (2 ^ 52 = 2 ^ E * 2 ^ (52 - E)) as Heq
        by (rewrite <- pow2_split by lia; f_equal; lia).
      pose proof (pow2_pos (52 - E) ltac:(lia)). nia.
    + apply Z.leb_gt in Hs.
      assert (2 ^ (52 - E) = 2 ^ (- E) * 2 ^ 52) as Heq
        by (rewrite <- pow2_split by lia; f_equal; lia).
      nia.
  - unfold above_pow2 in Hhi. destruct (0 <=? E + 1) eqn:Hs.
    + apply Z.leb_le in Hs.
      assert (2 ^ 53 = 2 ^ (E + 1) * 2 ^ (52 - E)) as Heq
        by (rewrite <- pow2_split by lia; f_equal; lia).
      pose proof (pow2_pos (52 - E) ltac:(lia)). nia.
    + apply Z.leb_gt in Hs.
      assert (2 ^ (52 - E) = 2 ^ (- (E + 1)) * 2 ^ 53) as Heq
        by (rewrite <- pow2_split by lia; f_equal; lia).
      nia.
Qed.

(** Rounding to the nearest integer is monotone in the quotient. *)
Lemma nearest_even_mono n d n' d' :
  0 < d → 0 < d' → 0 <= n → n * d' <= n' * d →
  nearest_even n d <= nearest_even n' d'.
Proof.
  intros Hd Hd' Hn Hle. unfold nearest_even.
  pose proof (Z.div_mod n d ltac:(lia)) as Hq.
  pose proof (Z.mod_pos_bound n d Hd) as Hr.
  pose proof (Z.div_mod n' d' ltac:(lia)) as Hq'.
  pose proof (Z.mod_pos_bound n' d' Hd') as Hr'.
  set (q := n / d) in *. set (r := n mod d) in *.
  set (q' := n' / d') in *. set (r' := n' mod d') in *.
  assert (q <= q') as Hqq.
  { destruct (Z_le_gt_dec q q') as [|Hgt]; [done|]. exfalso.
    assert (d * d' * (q' + 1) <= d * d' * q) as H1
      by (apply Z.mul_le_mono_nonneg_l; nia).
    assert (r' * d < d' * d) as H2 by nia.
    assert (0 <= r * d') as H3 by nia.
    rewrite Hq, Hq' in Hle. nia. }
  destruct (Z.eq_dec q q') as [Heq|Hne].
  - assert (r * d' <= r' * d) as Hrr.
    { rewrite Hq, Hq', <- Heq in Hle. nia. }
    clearbody q' r'. subst q'.
    destruct (2 * r <? d) eqn:H1; [apply Z.ltb_lt in H1|apply Z.ltb_ge in H1].
    + repeat destruct (_ <? _); try destruct (Z.even q); lia.
    + destruct (d <? 2 * r) eqn:H2; [apply Z.ltb_lt in H2|apply Z.ltb_ge in H2].
      * assert (d' < 2 * r') as H3 by nia.
        rewrite (proj2 (Z.ltb_ge (2 * r') d')) by lia.
        rewrite (proj2 (Z.ltb_lt d' (2 * r'))) by lia. lia.
      * assert (d' <= 2 * r') as H3 by nia.
        rewrite (proj2 (Z.ltb_ge (2 * r') d')) by lia.
        destruct (d' <? 2 * r'); destruct (Z.even q); lia.
  - assert (q + 1 <= q') by lia.
    repeat destruct (_ <? _); try destruct (Z.even q);
      try destruct (Z.even q'); lia.
Qed.

Lemma nearest_even_integer z : nearest_even z 1 = z.
Proof.
  unfold nearest_even. rewrite Z.div_1_r, Z.mod_1_r. reflexivity.
Qed.

Lemma nearest_even_lower n d z :
  0 < d → 0 <= z → z * d <= n → z <= nearest_even n d.
Proof.
  intros. rewrite <- (nearest_even_integer z).
  apply nearest_even_mono; lia.
Qed.

Lemma nearest_even_upper n d z :
  0 < d → 0 <= n → n <= z * d → nearest_even n d <= z.
Proof.
  intros. rewrite <- (nearest_even_integer z).
  apply nearest_even_mono; lia.
Qed.

(** The mantissa of a rounded quotient below [2 ^ 52]. *)
Lemma round_ratio_mant num den :
  0 < num → 0 < den → num < den * 2 ^ 52 →
  2 ^ 52 <= mant (round_ratio num den) <= 2 ^ 53.
Proof.
  intros Hnum Hden Hsmall.
  destruct (round_ratio_spec num den Hnum Hden Hsmall) as (Hs & [Hlo Hhi] & ->).
  pose proof (pow2_pos (- expo (round_ratio num den)) ltac:(lia)).
  split.
  - apply nearest_even_lower; lia.
  - apply nearest_even_upper; nia.
Qed.

(** [m / 2 ^ s <= m' / 2 ^ s'] for floats with negative exponents. *)
Definition float_le (x y : float) : Prop :=
  mant x * 2 ^ (- expo y) <= mant y * 2 ^ (- expo x).

(** Rounding is monotone in the quotient. *)
Lemma round_ratio_mono num den num' den' :
  0 < num → 0 < den → num < den * 2 ^ 52 →
  0 < num' → 0 < den' → num' < den' * 2 ^ 52 →
  num * den' <= num' * den →
  float_le (round_ratio num den) (round_ratio num' den').
Proof.
  intros Hnum Hden Hsmall Hnum' Hden' Hsmall' Hle.
  pose proof (round_ratio_mant num den Hnum Hden Hsmall) as Hm.
  pose proof (round_ratio_mant num' den' Hnum' Hden' Hsmall') as Hm'.
  destruct (round_ratio_spec num den Hnum Hden Hsmall) as (Hs & [Hlo Hhi] & Heq).
  destruct (round_ratio_spec num' den' Hnum' Hden' Hsmall')
    as (Hs' & [Hlo' Hhi'] & Heq').
  unfold float_le.
  set (s := - expo (round_ratio num den)) in *.
  set (s' := - expo (round_ratio num' den')) in *.
  set (m := mant (round_ratio num den)) in *.
  set (m' := mant (round_ratio num' den')) in *.
  pose proof (pow2_pos s ltac:(lia)) as Hp.
  pose proof (pow2_pos s' ltac:(lia)) as Hp'.
  destruct (Z_lt_le_dec s s') as [Hlt|Hge].
  - (* the larger quotient cannot have the smaller exponent *)
    exfalso.
    assert (2 ^ s' = 2 ^ s * 2 ^ (s' - s)) as Hsplit
      by (rewrite <- pow2_split by lia; f_equal; lia).
    assert (2 <= 2 ^ (s' - s)) as H2.
    { change 2 with (2 ^ 1) at 1. apply Z.pow_le_mono_r; lia. }
    set (A := 2 ^ s) in *. set (P := 2 ^ (s' - s)) in *.
    rewrite Hsplit in Hhi'.
    assert (den' * (den * 2 ^ 52) <= den' * (num * A)) as h1
      by (apply Z.mul_le_mono_nonneg_l; lia).
    assert (num * den' * A <= num' * den * A) as h2
      by (apply Z.mul_le_mono_nonneg_r; lia).
    assert (0 <= num' * den * A) as h0
      by (apply Z.mul_nonneg_nonneg; [apply Z.mul_nonneg_nonneg|]; lia).
    assert (num' * den * A * 2 <= num' * den * A * P) as h3
      by (apply Z.mul_le_mono_nonneg_l; lia).
    assert (den * (num' * (A * P)) < den * (den' * 2 ^ 53)) as h4
      by (apply Z.mul_lt_mono_pos_l; lia).
    lia.
  - destruct (Z.eq_dec s s') as [Hss|Hne].
    + rewrite <- Hss in *.
      apply Z.mul_le_mono_nonneg_r; [lia|].
      rewrite Heq, Heq'. apply nearest_even_mono; [lia|lia| |].
      * apply Z.mul_nonneg_nonneg; lia.
      * replace (num * 2 ^ s * den') with (num * den' * 2 ^ s) by ring.
        replace (num' * 2 ^ s * den) with (num' * den * 2 ^ s) by ring.
        apply Z.mul_le_mono_nonneg_r; lia.
    + assert (2 ^ s = 2 ^ s' * 2 ^ (s - s')) as Hsplit
        by (rewrite <- pow2_split by lia; f_equal; lia).
      assert (2 <= 2 ^ (s - s')) as H2.
      { change 2 with (2 ^ 1) at 1. apply Z.pow_le_mono_r; lia. }
      rewrite Hsplit.
      set (B := 2 ^ s') in *. set (P := 2 ^ (s - s')) in *.
      assert (m * B <= 2 ^ 53 * B) as h1
        by (apply Z.mul_le_mono_nonneg_r; lia).
      assert (0 <= B * P) as h0 by (apply Z.mul_nonneg_nonneg; lia).
      assert (2 ^ 52 * (B * P) <= m' * (B * P)) as h2
        by (apply Z.mul_le_mono_nonneg_r; lia).
      assert (2 ^ 52 * B * 2 <= 2 ^ 52 * B * P) as h3
        by (apply Z.mul_le_mono_nonneg_l; lia).
      lia.
Qed.

Lemma div_cross_mono a b c d :
  0 < b → 0 < d → 0 <= a → a * d <= c * b → a / b <= c / d.
Proof.
  intros Hb Hd Ha Hle. apply Z.div_le_lower_bound; [done|].
  pose proof (Z.mul_div_le a b Hb) as Hfloor.
  assert (0 <= a / b) by (apply Z.div_pos; lia).
  nia.
Qed.

(** Dropping the fraction is monotone. *)
Lemma to_int_mono x y :
  expo x < 0 → expo y < 0 → 0 <= mant x → float_le x y →
  to_int x <= to_int y.
Proof.
  intros Hx Hy Hm Hle. unfold to_int, ratio_of.
  rewrite (proj2 (Z.leb_gt 0 (expo x))), (proj2 (Z.leb_gt 0 (expo y))) by lia.
  apply div_cross_mono; [apply pow2_pos; lia..|done|done].
Qed.

Definition hundred : float := {| mant := 7036874417766400; expo := -46 |}.

Lemma of_int_100 : of_int 100 = hundred.
Proof. vm_compute. reflexivity. Qed.

Lemma hundred_mant : mant hundred = 100 * 2 ^ 46.
Proof. vm_compute. reflexivity. Qed.

(** The product of a number with a negative exponent and [100.0]. *)
Lemma mul_hundred x :
  expo x < 0 →
  mul x hundred = round_ratio (mant x * (100 * 2 ^ 46)) (2 ^ (- expo x + 46)).
Proof.
  intros Hx. unfold mul, ratio_of. rewrite hundred_mant. cbn [expo hundred].
  rewrite (proj2 (Z.leb_gt 0 (expo x + -46))) by lia.
  f_equal. f_equal. lia.
Qed.

(** [int(num / den * 100)] *)
Definition percent (num den : Z) : Z :=
  to_int (mul (true_div num den) (of_int 100)).

(** A quotient of at most one, rounded. *)
Lemma true_div_unit num den :
  0 < num → num <= den →
  let x := true_div num den in
  52 <= - expo x ∧ 2 ^ 52 <= mant x <= 2 ^ 53.
Proof.
  intros Hnum Hle. unfold true_div.
  assert (num < den * 2 ^ 52) as Hsmall by lia.
  destruct (round_ratio_spec num den Hnum ltac:(lia) Hsmall) as (Hs & [Hlo Hhi] & _).
  split; [|by apply round_ratio_mant; lia].
  destruct (Z_le_gt_dec 52 (- expo (round_ratio num den))) as [|Hlt]; [done|].
  exfalso.
  assert (2 ^ 52 = 2 ^ (- expo (round_ratio num den))
                   * 2 ^ (52 - - expo (round_ratio num den))) as Heq
    by (rewrite <- pow2_split by lia; f_equal; lia).
  assert (2 <= 2 ^ (52 - - expo (round_ratio num den))) as H2.
  { change 2 with (2 ^ 1) at 1. apply Z.pow_le_mono_r; lia. }
  pose proof (pow2_pos (- expo (round_ratio num den)) ltac:(lia)). nia.
Qed.

(** The product of such a quotient with [100.0] is within the scope of
    [round_ratio_spec]. *)
Lemma percent_scope m s :
  52 <= s → 2 ^ 52 <= m <= 2 ^ 53 →
  0 < m * (100 * 2 ^ 46) ∧ 0 < 2 ^ (s + 46)
  ∧ m * (100 * 2 ^ 46) < 2 ^ (s + 46) * 2 ^ 52.
Proof.
  intros Hs Hm.
  assert (2 ^ (s + 46) = 2 ^ 98 * 2 ^ (s - 52)) as Heq
    by (rewrite <- pow2_split by lia; f_equal; lia).
  pose proof (pow2_pos (s - 52) ltac:(lia)) as Hp.
  split_and!; [lia|lia|]. rewrite Heq.
  assert (m * (100 * 2 ^ 46) < 2 ^ 98 * 2 ^ 52) by lia. nia.
Qed.

(** The percentage is monotone in the quotient. *)
Lemma percent_mono num den num' den' :
  0 < num → num <= den → 0 < num' → num' <= den' →
  num * den' <= num' * den →
  percent num den <= percent num' den'.
Proof.
  intros Hnum Hle Hnum' Hle' Hcross. unfold percent. rewrite of_int_100.
  destruct (true_div_unit num den Hnum Hle) as [Hs Hm].
  destruct (true_div_unit num' den' Hnum' Hle') as [Hs' Hm'].
  assert (float_le (true_div num den) (true_div num' den')) as Hxy
    by (apply round_ratio_mono; lia).
  unfold float_le in Hxy.
  set (x := true_div num den) in *. set (y := true_div num' den') in *.
  rewrite !mul_hundred by lia.
  destruct (percent_scope (mant x) (- expo x) Hs Hm) as (H1 & H2 & H3).
  destruct (percent_scope (mant y) (- expo y) Hs' Hm') as (H1' & H2' & H3').
  pose proof (round_ratio_spec _ _ H1 H2 H3) as (Hr & _ & _).
  pose proof (round_ratio_spec _ _ H1' H2' H3') as (Hr' & _ & _).
  pose proof (round_ratio_mant _ _ H1 H2 H3) as Hmant.
  apply to_int_mono; [lia|lia|lia|].
  apply round_ratio_mono; [done..|].
  rewrite !(pow2_split _ 46) by lia. nia.
Qed.

End FloatFacts.

(** ** Progress of a restore *)

Module ProgressFacts.
Import Fs Tar Backups FloatFacts.

Lemma progress_percent i total : progress i total = percent (i + 1) total.
Proof. reflexivity. Qed.

Lemma progress_mono i j total :
  0 <= i → i <= j → j < total → progress i total <= progress j total.
Proof.
  intros Hi Hij Hj. rewrite !progress_percent.
  apply percent_mono; [lia..|]. nia.
Qed.

Lemma percent_whole : percent 1 1 = 100.
Proof. vm_compute. reflexivity. Qed.

Lemma progress_last total : 1 <= total → progress (total - 1) total = 100.
Proof.
  intros Ht. rewrite progress_percent, <- percent_whole.
  replace (total - 1 + 1) with total by lia.
  apply Z.le_antisymm; apply percent_mono; lia.
Qed.

Lemma percent_largest_fraction : percent (2 ^ 53 - 1) (2 ^ 53) = 99.
Proof. vm_compute. reflexivity. Qed.

(** Before the last member the percentage stays below one hundred, for
    up to [2 ^ 53] members. *)
Lemma progress_below i total :
  0 <= i → i + 1 < total → total <= 2 ^ 53 → progress i total <= 99.
Proof.
  intros Hi Hlt Hbig. rewrite progress_percent, <- percent_largest_fraction.
  apply percent_mono; [lia..|]. lia.
Qed.

(** A restore that completes reports one value per member. *)
Lemma extract_all_reported mount total members :
  ∀ i st st',
    extract_all mount total true i members st = (Ok (), st') →
    reported st'
    = reported st
      ++ map (fun j => progress j total) (seqZ i (Z.of_nat (length members))).
Proof.
  induction members as [|m members IH]; intros i st st' Hrun.
  - injection Hrun as <-. by rewrite app_nil_r.
  - cbn [extract_all] in Hrun.
    destruct (Tar.extract _ _ _) as [t|e]; [|done].
    apply IH in Hrun. rewrite Hrun. cbn [reported].
    rewrite <- app_assoc. f_equal.
    rewrite (seqZ_cons i (Z.of_nat (length (m :: members)))) by (simpl; lia).
    simpl map. do 3 f_equal. simpl length. lia.
Qed.

Lemma restore_archive_completes at_path root archive_path mount callback members :
  (restore_archive at_path root archive_path mount callback).1.1 = Ok () →
  at_path (PosixPath.normpath archive_path) = Some (Archive members) →
  ∃ st',
    extract_all (PosixPath.normpath mount) (Z.of_nat (length members)) callback 0
      members {| tree := root; reported := [] |} = (Ok (), st')
    ∧ (restore_archive at_path root archive_path mount callback).1.2 = st'.
Proof.
  unfold restore_archive, open_members. intros Hok Hat. rewrite Hat in *.
  rewrite decide_False in * by done.
  destruct (Op1.is_valid_mount _ _) as [[] out]; [|done]. cbn [negb] in *.
  destruct (extract_all _ _ _ _ _ _) as [[[]|e] st']; [|done].
  by exists st'.
Qed.

(** The rounding the specification speaks of: the nearest integer. *)
Definition round_half_even (x : PyFloat.float) : Z :=
  let '(n, d) := PyFloat.ratio_of (PyFloat.mant x) (PyFloat.expo x) in
  PyFloat.nearest_even n d.

(** [round((processed / total) * 100)] *)
Definition rounded_progress (processed total : Z) : Z :=
  round_half_even
    (PyFloat.mul (PyFloat.true_div processed total) (PyFloat.of_int 100)).

(** C5, as stated, fails: for an archive of three members the second
    value reported is 66, where rounding gives 67. *)
Lemma restore_progress_is_not_rounded :
  reported
    (restore_archive
       (Scenario.one_archive "/backups/b.tar.xz" Scenario.three_members)
       Scenario.target_root "/backups/b.tar.xz" "/mnt/op1" true).1.2
  = [33; 66; 100]
  ∧ map (fun processed => rounded_progress processed 3) [1; 2; 3]
    = [33; 67; 100].
Proof. split; vm_compute; reflexivity. Qed.

(** C5, amended: a restore with a callback that completes, from an archive
    of at least one and at most [2 ^ 53] members, calls the callback once
    per member, in order, with [int((i + 1) / total * 100)], the fraction
    dropped and not rounded; these values never decrease, and the value
    100 is reported exactly once, for the last member. *)
Theorem restore_archive_progress :
  ∀ (at_path : string → option tarball) (root : node)
    (archive_path mount : string) (members : list TarInfo),
    at_path (PosixPath.normpath archive_path) = Some (Archive members) →
    (restore_archive at_path root archive_path mount true).1.1 = Ok () →
    members ≠ [] →
    Z.of_nat (length members) <= 2 ^ 53 →
    let total := Z.of_nat (length members) in
    let r := reported (restore_archive at_path root archive_path mount true).1.2 in
    r = map (fun i => progress i total) (seqZ 0 total)
    ∧ length r = length members
    ∧ (∀ (i j : nat) x y, (i ≤ j)%nat → r !! i = Some x → r !! j = Some y → x <= y)
    ∧ (∀ (i : nat) x, r !! i = Some x → (x = 100 ↔ i = (length members - 1)%nat)).
Proof.
  intros at_path root archive_path mount members Hat Hok Hne Hbig total r.
  destruct (restore_archive_completes _ _ _ _ _ _ Hok Hat) as (st' & Hrun & Hst).
  apply extract_all_reported in Hrun. cbn [reported app] in Hrun.
  assert (r = map (fun i => progress i total) (seqZ 0 total)) as Hr
    by (subst r; by rewrite Hst).
  assert (∀ (i : nat) x, r !! i = Some x →
            x = progress (Z.of_nat i) total ∧ Z.of_nat i < total) as Hlook.
  { intros i x Hx. rewrite Hr in Hx.
    change (map ?f ?l) with (f <$> l) in Hx.
    rewrite list_lookup_fmap in Hx.
    destruct (seqZ 0 total !! i) as [z|] eqn:Hz; [|done].
    apply lookup_seqZ in Hz as [-> Hlt]. injection Hx as <-.
    split; [f_equal; lia|lia]. }
  assert (0 < total) as Hpos by (subst total; destruct members; [done|simpl; lia]).
  split_and!.
  - done.
  - rewrite Hr, length_map, length_seqZ. subst total. lia.
  - intros i j x y Hij Hx Hy.
    apply Hlook in Hx as [-> Hi]. apply Hlook in Hy as [-> Hj].
    apply progress_mono; lia.
  - intros i x Hx. apply Hlook in Hx as [-> Hi]. split.
    + intros H100.
      destruct (decide (Z.of_nat i + 1 < total)) as [Hlt|Hge]; [|subst total; lia].
      pose proof (progress_below (Z.of_nat i) total ltac:(lia) Hlt Hbig). lia.
    + intros ->. rewrite <- (progress_last total) by lia. f_equal.
      subst total. lia.
Qed.

Lemma restore_archive_progress_witness :
  let at_path := Scenario.one_archive "/backups/b.tar.xz" Scenario.three_members in
  let total := Z.of_nat (length Scenario.three_members) in
  let r := reported
             (restore_archive at_path Scenario.target_root
                "/backups/b.tar.xz" "/mnt/op1" true).1.2 in
  r = map (fun i => progress i total) (seqZ 0 total)
  ∧ length r = length Scenario.three_members
  ∧ (∀ (i j : nat) x y, (i ≤ j)%nat → r !! i = Some x → r !! j = Some y → x <= y)
  ∧ (∀ (i : nat) x, r !! i = Some x →
       (x = 100 ↔ i = (length Scenario.three_members - 1)%nat)).
Proof.
  apply (restore_archive_progress
           (Scenario.one_archive "/backups/b.tar.xz" Scenario.three_members)
           Scenario.target_root "/backups/b.tar.xz" "/mnt/op1"
           Scenario.three_members).
  - reflexivity.
  - vm_compute. reflexivity.
  - discriminate.
  - vm_compute. discriminate.
Defined.

End ProgressFacts.

(** ** Trees: looking up and writing *)

Module TreeFacts.
Import Fs Tar.

(** What lies at the names [p] below [t]: nothing, a file with its bytes,
    or a directory. *)
Definition kind_at (t : node) (p : list string) : option kind :=
  kind_of <$> lookup p t.


(** Induction on trees, with the entries of a directory. *)
Lemma node_rect_entries (P : node → Prop) :
  (∀ d, P (File d)) →
  (∀ es, Forall (fun e => P e.2) es → P (Dir es)) →
  ∀ n, P n.
Proof.
  intros Hfile Hdir. fix IH 1. intros [d|es]; [apply Hfile|].
  apply Hdir. induction es as [|e es IHes]; constructor; [apply IH|apply IHes].
Qed.




Lemma child_elem es c n : child es c = Some n → (c, n) ∈ es.
Proof.
  induction es as [|[n0 c0] es IH]; [done|]. simpl.
  destruct (decide (n0 = c)) as [->|].
  - intros [= ->]. left.
  - intros H. right. by apply IH.
Qed.

Lemma elem_child es c n : NoDup (map fst es) → (c, n) ∈ es → child es c = Some n.
Proof.
  induction es as [|[n0 c0] es IH]; intros Hnd Hin.
  - by apply elem_of_nil in Hin.
  - simpl in Hnd. apply NoDup_cons in Hnd as [Hnot Hnd]. simpl.
    apply elem_of_cons in Hin as [[= -> ->]|Hin].
    + by rewrite decide_True.
    + rewrite decide_False; [by apply IH|].
      intros ->. apply Hnot. change c with ((c, n).1).
      by apply list_elem_of_fmap_2.
Qed.

Lemma lookup_app p q t :
  lookup (p ++ q) t = match lookup p t with Some t' => lookup q t' | None => None end.
Proof.
  revert t. induction p as [|c p IH]; intros t; [done|]. simpl.
  destruct t as [|es]; [done|]. destruct (child es c); [apply IH|done].
Qed.

Lemma lookup_file d q : q ≠ [] → lookup q (File d) = None.
Proof. by destruct q. Qed.

Lemma kind_at_nil t : kind_at t [] = Some (kind_of t).
Proof. reflexivity. Qed.


Lemma kind_at_file_cons d c q : kind_at (File d) (c :: q) = None.
Proof. reflexivity. Qed.









(** Well-formed directories. *)
Lemma well_formed_dir es :
  well_formed (Dir es) = true →
  NoDup (map fst es)
  ∧ ∀ e, e ∈ es → clean_name e.1 = true ∧ well_formed e.2 = true.
Proof.
  simpl. intros [Hnd Hall]%andb_true_iff. apply bool_decide_eq_true in Hnd.
  split; [done|]. intros e He.
  rewrite forallb_forall in Hall. apply andb_true_iff, Hall.
  by apply list_elem_of_In.
Qed.

Lemma well_formed_lookup p :
  ∀ t t', well_formed t = true → lookup p t = Some t' → well_formed t' = true.
Proof.
  induction p as [|c p IH]; intros t t' Hwf Hl.
  - by injection Hl as <-.
  - destruct t as [d|es]; [done|]. simpl in Hl.
    destruct (child es c) as [t0|] eqn:Hc; [|done].
    apply (IH t0); [|done].
    apply well_formed_dir in Hwf as [_ Hall].
    by apply (Hall (c, t0)), child_elem.
Qed.

Lemma lookup_clean p :
  ∀ t t', well_formed t = true → lookup p t = Some t' →
          Forall (fun c => clean_name c = true) p.
Proof.
  induction p as [|c p IH]; intros t t' Hwf Hl; [constructor|].
  destruct t as [d|es]; [done|]. simpl in Hl.
  destruct (child es c) as [t0|] eqn:Hc; [|done].
  apply well_formed_dir in Hwf as [_ Hall].
  destruct (Hall (c, t0)) as [Hclean Hwf0]; [by apply child_elem|].
  constructor; [done|]. by apply (IH t0 t').
Qed.

End TreeFacts.

(** ** The members of a generated archive *)

Module GenerateFacts.
Import Fs Tar Backups PathFacts TreeFacts.

Abbreviation clean_path := (Forall (fun c => clean_name c = true)).

(** The member for the node [n] at the names [p] below the mount. *)
Definition member_of (p : list string) (n : node) : TarInfo :=
  {| name := Py.join "/" p; typ := kind_of n |}.

Lemma elem_of_flat_map {A B} (f : A → list B) (l : list A) (y : B) :
  y ∈ flat_map f l ↔ ∃ x, x ∈ l ∧ y ∈ f x.
Proof.
  rewrite list_elem_of_In, in_flat_map. split.
  - intros (x & Hx & Hy). exists x. by rewrite !list_elem_of_In.
  - intros (x & Hx & Hy). exists x. by rewrite <- !list_elem_of_In.
Qed.

Lemma elem_of_list_filter {A} (f : A → bool) (l : list A) (x : A) :
  x ∈ List.filter f l ↔ x ∈ l ∧ f x = true.
Proof. by rewrite !list_elem_of_In, filter_In. Qed.

Lemma insert_sorted_perm {A} (x : string * A) l : insert_sorted x l ≡ₚ x :: l.
Proof.
  induction l as [|y l IH]; [done|]. simpl.
  destruct (String.leb x.1 y.1); [done|].
  rewrite IH. apply Permutation_swap.
Qed.

Lemma sort_by_name_perm {A} (l : list (string * A)) : sort_by_name l ≡ₚ l.
Proof.
  induction l as [|x l IH]; [done|]. simpl.
  by rewrite insert_sorted_perm, IH.
Qed.

(** Joined clean names do not end with a slash. *)
Lemma join_clean_no_trailing_slash p :
  p ≠ [] → clean_path p →
  Py.startswith
    (String.string_of_list_ascii (rev (String.list_ascii_of_string (Py.join "/" p))))
    "/" = false.
Proof.
  intros Hp Hclean. destruct (Py.startswith _ "/") eqn:Hend; [|done].
  apply ends_with_slash in Hend as [a' Ha].
  pose proof (split_join p Hp (clean_slash_free p Hclean)) as Hsplit.
  rewrite Ha, split_trailing_slash in Hsplit.
  assert (last p = Some "") as Hlast by (by rewrite <- Hsplit, last_snoc).
  apply last_Some in Hlast as [l' ->].
  apply Forall_app in Hclean as [_ Hclean].
  by inversion Hclean.
Qed.

Lemma join_clean_nonempty p : p ≠ [] → clean_path p → Py.join "/" p ≠ "".
Proof.
  intros Hp Hclean. by destruct (join_clean_head p Hp Hclean) as (c & s & -> & _).
Qed.

(** [os.path.join] of the joined names [p] and one more name. *)
Lemma join_arcname p c :
  p ≠ [] → clean_path p → clean_name c = true →
  PosixPath.join (Py.join "/" p) c = Py.join "/" (p ++ [c]).
Proof.
  intros Hp Hclean Hc. unfold PosixPath.join.
  destruct (join_clean_head [c]) as (x & s & Hx & Hne);
    [done|by constructor|]. simpl in Hx.
  rewrite Hx, startswith_slash_head, bool_decide_eq_false_2 by done.
  rewrite <- Hx. rewrite decide_False by (by apply join_clean_nonempty).
  rewrite join_clean_no_trailing_slash by done.
  by rewrite join_snoc.
Qed.

Lemma add_head arcname n :
  {| name := arcname; typ := kind_of n |} ∈ Tar.add arcname n.
Proof. destruct n; left. Qed.

(** Every member [tar.add] writes for a node is a node below it, under
    its path. *)
Lemma add_sound n :
  well_formed n = true →
  ∀ p m, p ≠ [] → clean_path p →
    m ∈ Tar.add (Py.join "/" p) n →
    ∃ q n', lookup q n = Some n' ∧ m = member_of (p ++ q) n'.
Proof.
  induction n as [d|es IH] using node_rect_entries; intros Hwf p m Hp Hclean Hm.
  - apply list_elem_of_singleton in Hm as ->. exists [], (File d).
    by rewrite app_nil_r.
  - simpl in Hm. apply elem_of_cons in Hm as [->|Hm].
    { exists [], (Dir es). by rewrite app_nil_r. }
    apply elem_of_flat_map in Hm as (x & Hx & Hm).
    rewrite sort_by_name_perm in Hx.
    apply list_elem_of_fmap in Hx as (e & -> & He). simpl in Hm.
    apply well_formed_dir in Hwf as [Hnd Hall].
    destruct (Hall e He) as [Hce Hwe].
    rewrite join_arcname in Hm by done.
    rewrite Forall_forall in IH.
    destruct (IH e He Hwe (p ++ [e.1]) m) as (q & n' & Hq & ->);
      [by destruct p|by apply Forall_app; split; [|constructor]|done|].
    exists (e.1 :: q), n'. split.
    + simpl. rewrite (elem_child es e.1 e.2 Hnd); [done|by destruct e].
    + by rewrite <- app_assoc.
Qed.

(** The triples of [os.walk]: one for each directory below the top. *)
Lemma walk_sound n :
  well_formed n = true →
  ∀ top tr, tr ∈ walk top n →
    ∃ q es', lookup q n = Some (Dir es')
             ∧ components tr.1.1 = components top ++ q
             ∧ tr.1.2 = List.filter (fun e => is_dir e.2) es'
             ∧ tr.2 = List.filter (fun e => negb (is_dir e.2)) es'.
Proof.
  induction n as [d|es IH] using node_rect_entries; intros Hwf top tr Htr.
  - by apply elem_of_nil in Htr.
  - simpl in Htr. apply elem_of_cons in Htr as [->|Htr].
    { exists [], es. by rewrite app_nil_r. }
    apply elem_of_flat_map in Htr as (e & He & Htr).
    apply well_formed_dir in Hwf as [Hnd Hall].
    destruct (Hall e He) as [Hce Hwe].
    rewrite Forall_forall in IH.
    destruct (IH e He Hwe _ _ Htr) as (q & es' & Hq & Hc & Hd & Hf).
    exists (e.1 :: q), es'. split_and!; [|by rewrite Hc, components_join_name, <- app_assoc|done..].
    simpl. rewrite (elem_child es e.1 e.2 Hnd); [done|by destruct e].
Qed.

Lemma walk_complete q :
  ∀ n es' top,
    lookup q n = Some (Dir es') →
    well_formed n = true →
    ∃ root,
      (root, List.filter (fun e => is_dir e.2) es',
             List.filter (fun e => negb (is_dir e.2)) es') ∈ walk top n
      ∧ components root = components top ++ q.
Proof.
  induction q as [|c q IH]; intros n es' top Hl Hwf.
  - injection Hl as ->. exists top. split; [left|by rewrite app_nil_r].
  - destruct n as [d|es]; [done|]. simpl in Hl.
    destruct (child es c) as [t0|] eqn:Hc; [|done].
    apply well_formed_dir in Hwf as [Hnd Hall].
    pose proof (child_elem _ _ _ Hc) as Hin.
    destruct (Hall _ Hin) as [Hcc Hw0]. simpl in Hcc, Hw0.
    destruct (IH t0 es' (PosixPath.join top c) Hl Hw0) as (root & Hroot & Hcomp).
    exists root. split.
    + simpl. right. apply elem_of_flat_map. by exists (c, t0).
    + by rewrite Hcomp, components_join_name, <- app_assoc.
Qed.

Lemma common_prefix_app l r : common_prefix l (l ++ r) = l.
Proof.
  induction l as [|a l IH]; [by destruct r|]. simpl.
  by rewrite decide_True, IH.
Qed.

(** The path of something below the mount, relative to the mount. *)
Lemma relpath_below full mount r :
  components full = components mount ++ r → r ≠ [] →
  relpath full mount = Py.join "/" r.
Proof.
  intros Hfull Hr. unfold relpath. rewrite Hfull, common_prefix_app.
  rewrite Nat.sub_diag, drop_app_length. simpl. by destruct r.
Qed.

Lemma archive_name_below root mount p c :
  components root = components mount ++ p →
  clean_path p → clean_name c = true →
  PosixPath.normpath (relpath (PosixPath.join root c) mount)
  = Py.join "/" (p ++ [c]).
Proof.
  intros Hroot Hp Hc.
  rewrite (relpath_below _ _ (p ++ [c])).
  - apply normpath_clean; [by destruct p|].
    apply Forall_app. split; [done|by constructor].
  - by rewrite components_join_name, Hroot, <- app_assoc.
  - by destruct p.
Qed.

Section Generated.
Context (mount : string) (es : list (string * node)).
Hypothesis wf : well_formed (Dir es) = true.

(** Every member of the archive is a node of the device, under its path
    relative to the mount. *)
Lemma generate_sound m :
  m ∈ flat_map (add_child mount) es →
  ∃ p n, p ≠ [] ∧ clean_path p ∧ lookup p (Dir es) = Some n ∧ m = member_of p n.
Proof using wf.
  intros Hm. apply elem_of_flat_map in Hm as (e & He & Hm).
  pose proof (well_formed_dir es wf) as [Hnd Hall].
  destruct (Hall e He) as [Hce Hwe].
  assert (child es e.1 = Some e.2) as Hchild
    by (apply elem_child; [done|by destruct e]).
  unfold add_child in Hm. destruct (hidden e.1); [by apply elem_of_nil in Hm|].
  apply elem_of_app in Hm as [Hm|Hm].
  - apply list_elem_of_singleton in Hm as ->.
    exists [e.1], e.2. split_and!; [done|by constructor|by simpl; rewrite Hchild|].
    unfold member_of. f_equal. by apply (normpath_clean [e.1]); [|constructor].
  - destruct (is_dir e.2); [|by apply elem_of_nil in Hm].
    apply elem_of_flat_map in Hm as (tr & Htr & Hm).
    destruct (walk_sound e.2 Hwe _ _ Htr) as (q & es' & Hq & Hcomp & Hd & Hf).
    destruct tr as [[root dirs] files]. simpl in Hcomp, Hd, Hf.
    rewrite components_join_name in Hcomp by done. rewrite <- app_assoc in Hcomp.
    pose proof (well_formed_lookup _ _ _ Hwe Hq) as Hwes'.
    pose proof (well_formed_dir es' Hwes') as [Hnd' Hall'].
    pose proof (lookup_clean _ _ _ Hwe Hq) as Hcq.
    unfold add_walked in Hm. apply elem_of_flat_map in Hm as (e' & He' & Hm).
    assert (e' ∈ es') as Hin'.
    { subst dirs files. apply elem_of_app in He' as [He'|He'];
        by apply elem_of_list_filter in He' as [? _]. }
    destruct (Hall' e' Hin') as [Hce' Hwe'].
    destruct (hidden e'.1); [by apply elem_of_nil in Hm|].
    rewrite (archive_name_below root mount ([e.1] ++ q)) in Hm;
      [|done|by constructor|done].
    destruct (add_sound e'.2 Hwe' (([e.1] ++ q) ++ [e'.1]) m)
      as (q2 & n' & Hq2 & ->);
      [done|by apply Forall_app; split; [constructor|constructor]|done|].
    exists (([e.1] ++ q) ++ [e'.1] ++ q2), n'.
    assert (lookup (([e.1] ++ q) ++ [e'.1] ++ q2) (Dir es) = Some n') as Hlook.
    { simpl. rewrite Hchild, lookup_app, Hq. simpl.
      rewrite (elem_child es' e'.1 e'.2 Hnd'); [done|by destruct e']. }
    split_and!; [done| |done|by rewrite <- app_assoc].
    by apply (lookup_clean _ _ _ wf Hlook).
Qed.

(** Every node of the device that no hidden name leads to is a member of
    the archive. *)
Lemma generate_complete p n :
  p ≠ [] → Forall (fun c => hidden c = false) p →
  lookup p (Dir es) = Some n →
  member_of p n ∈ flat_map (add_child mount) es.
Proof using wf.
  intros Hp Hvis Hl. destruct p as [|c rest]; [done|].
  pose proof (well_formed_dir es wf) as [Hnd Hall].
  simpl in Hl. destruct (child es c) as [t0|] eqn:Hc; [|done].
  pose proof (child_elem _ _ _ Hc) as Hin.
  destruct (Hall _ Hin) as [Hcc Hw0]. simpl in Hcc, Hw0.
  inversion Hvis as [|?? Hvc Hvrest]; subst.
  apply elem_of_flat_map. exists (c, t0). split; [done|].
  unfold add_child. cbn [fst snd]. rewrite Hvc. apply elem_of_app.
  destruct rest as [|c1 rest1] using rev_ind.
  - left. injection Hl as ->. apply list_elem_of_singleton.
    unfold member_of, add_flat. do 2 f_equal.
    symmetry. by apply (normpath_clean [c]); [|constructor].
  - clear IHrest1. right.
    rewrite lookup_app in Hl.
    destruct (lookup rest1 t0) as [par|] eqn:Hpar; [|done].
    destruct par as [d|es']; [done|]. simpl in Hl.
    destruct (child es' c1) as [n1|] eqn:Hc1; [|done]. injection Hl as ->.
    assert (is_dir t0 = true) as ->.
    { destruct t0; [|done]. by destruct rest1. }
    destruct (walk_complete rest1 t0 es' (PosixPath.join mount c) Hpar Hw0)
      as (root & Hroot & Hcomp).
    apply elem_of_flat_map. eexists. split; [exact Hroot|].
    unfold add_walked. apply elem_of_flat_map. exists (c1, n).
    pose proof (child_elem _ _ _ Hc1) as Hin1.
    pose proof (well_formed_lookup _ _ _ Hw0 Hpar) as Hwes'.
    pose proof (well_formed_dir es' Hwes') as [_ Hall'].
    destruct (Hall' _ Hin1) as [Hcc1 _]. simpl in Hcc1.
    apply Forall_app in Hvrest as [_ Hv1]. inversion Hv1 as [|?? Hvc1 _]; subst.
    split.
    + apply elem_of_app. destruct (is_dir n) eqn:Hd.
      * right. by apply elem_of_list_filter.
      * left. apply elem_of_list_filter. simpl. by rewrite Hd.
    + simpl. rewrite Hvc1.
      rewrite components_join_name in Hcomp by done.
      rewrite <- app_assoc in Hcomp.
      rewrite (archive_name_below root mount ([c] ++ rest1));
        [| done | | done].
      * rewrite <- app_assoc. apply add_head.
      * constructor; [done|]. by apply (lookup_clean _ _ _ Hw0 Hpar).
Qed.

End Generated.

End GenerateFacts.

(** ** Restoring a generated archive *)

Module RestoreFacts.
Import Fs Tar Backups Op1 PathFacts TreeFacts GenerateFacts.








Lemma join_clean_inj p q :
  p ≠ [] → q ≠ [] → clean_path p → clean_path q →
  Py.join "/" p = Py.join "/" q → p = q.
Proof.
  intros Hp Hq Hcp Hcq Heq.
  rewrite <- (split_join p), <- (split_join q), Heq;
    auto using clean_slash_free.
Qed.

Section Extraction.
Context (device : node) (mount : string).

Abbreviation mc := (components mount).







End Extraction.


Lemma generate_archive_inv root ts mount bdir apath members :
  generate_archive root ts mount bdir = Ok (apath, members) →
  ∃ es, stat root (PosixPath.normpath mount) = Some (Dir es)
        ∧ members = flat_map (add_child (PosixPath.normpath mount)) es.
Proof.
  unfold generate_archive, scandir.
  destruct (stat root (PosixPath.normpath mount)) as [[d|es]|]; [done| |done].
  intros [= _ <-]. by exists es.
Qed.



(** The archive of the device without [.trash], written to
    [/backups]. *)
Definition plain_archive : string * list TarInfo :=
  ("/backups/opie-backup-2024-01-01-000000.tar.xz",
   [ {| name := "tape"; typ := Directory |};
     {| name := "album"; typ := Directory |};
     {| name := "album/side_a.aif"; typ := RegFile "AAAA" |};
     {| name := "album/side_b.aif"; typ := RegFile "BBBB" |};
     {| name := "synth"; typ := Directory |};
     {| name := "drum"; typ := Directory |} ]).




End RestoreFacts.

(** ** Generated archives: names, hidden entries, verification *)

Module ArchiveFacts.
Import Fs Tar Backups Op1 Verify PathFacts TreeFacts GenerateFacts.

Lemma top_level_dir_member p n :
  p ≠ [] → clean_path p → top_level_dir (member_of p n) = default "" (head p).
Proof.
  intros Hp Hclean. unfold top_level_dir, member_of. cbn [name].
  by rewrite split_join by auto using clean_slash_free.
Qed.

(** The members of a generated archive, with the top-level entry each
    one comes from. *)
Lemma generate_sound_top mount es m :
  well_formed (Dir es) = true →
  m ∈ flat_map (add_child mount) es →
  ∃ c p n, hidden c = false ∧ clean_path (c :: p)
           ∧ lookup (c :: p) (Dir es) = Some n ∧ m = member_of (c :: p) n.
Proof.
  intros Hwf Hm.
  destruct (generate_sound mount es Hwf m Hm) as (p & n & Hp & Hclean & Hl & ->).
  apply elem_of_flat_map in Hm as (e & He & Hm). destruct e as [c0 t0].
  assert (hidden (c0, t0).1 = false) as Hvis.
  { unfold add_child in Hm. destruct (hidden (c0, t0).1); [|done].
    by apply elem_of_nil in Hm. }
  set (e := (c0, t0)) in *.
  pose proof (well_formed_dir es Hwf) as [Hnd Hall].
  destruct (Hall e He) as [Hce Hwe].
  assert (well_formed (Dir [e]) = true) as Hwf1.
  { cbn [well_formed forallb map]. rewrite Hce, Hwe.
    by rewrite bool_decide_eq_true_2 by apply NoDup_singleton. }
  assert (member_of p n ∈ flat_map (add_child mount) [e]) as Hm1
    by (simpl; by rewrite app_nil_r).
  destruct (generate_sound mount [e] Hwf1 _ Hm1)
    as (p' & n' & Hp' & Hclean' & Hl' & Heq).
  assert (p = p') as <-.
  { apply RestoreFacts.join_clean_inj; [done..|]. by injection Heq. }
  destruct p as [|c p]; [done|].
  subst e. simpl in Hl'. destruct (decide (c0 = c)) as [<-|]; [|done].
  by exists c0, p, n.
Qed.



(** X2: No member of a generated archive is, or lies under, a hidden entry of
    the top level of the mount: the first segment of its name never
    starts with a dot. *)
Theorem generate_archive_skips_hidden_top_level :
  ∀ (root : node) (timestamp mount backups_dir archive_path : string)
    (members : list TarInfo),
    well_formed root = true →
    generate_archive root timestamp mount backups_dir = Ok (archive_path, members) →
    ∀ m, m ∈ members → hidden (top_level_dir m) = false.
Proof.
  intros root ts mount bdir apath members Hwf Hgen m Hm.
  destruct (RestoreFacts.generate_archive_inv _ _ _ _ _ _ Hgen) as (es & Hes & ->).
  assert (well_formed (Dir es) = true) as Hwfd
    by (by apply (well_formed_lookup _ _ _ Hwf Hes)).
  destruct (generate_sound_top _ es m Hwfd Hm)
    as (c & p & n & Hvis & Hclean & Hl & ->).
  by rewrite top_level_dir_member.
Qed.

Lemma generate_archive_skips_hidden_top_level_witness :
  hidden (top_level_dir {| name := "album/side_a.aif"; typ := RegFile "AAAA" |})
  = false.
Proof.
  apply (generate_archive_skips_hidden_top_level Scenario.op1_root
           "2024-01-01-000000" "/Volumes/OP-1" "/backups"
           "/backups/opie-backup-2024-01-01-000000.tar.xz"
           (ArchiveExamples.members_of Scenario.op1_root "/Volumes/OP-1")).
  - vm_compute. reflexivity.
  - vm_compute. reflexivity.
  - apply list_elem_of_In. vm_compute. auto.
Defined.

Lemma required_is_base : required_dirs = OP1_BASE_DIRS.
Proof. reflexivity. Qed.

(** What the verification returns for a readable archive: the empty list
    of issues when every required name is the first segment of some
    member, and otherwise the one issue that lists the missing names. *)
Lemma verify_readable order at_path path members :
  (∀ s, order s ≡ₚ elements s) →
  at_path path = Some (Archive members) →
  verify_backup_structure order at_path path
  = if decide (required_dirs ∖ list_to_set (map top_level_dir members) = ∅)
    then (true, [])
    else (false,
          ["Missing required directories: "
           +:+ Py.join ", "
                 (order (required_dirs ∖ list_to_set (map top_level_dir members)))]).
Proof.
  intros Horder Hat. unfold verify_backup_structure, open_members. rewrite Hat.
  set (found := list_to_set (map top_level_dir members) : gset string).
  assert (flat_map
            (fun required_dir =>
               match List.filter (fun m => Py.startswith (name m) required_dir)
                       members with
               | [] => ["Directory '" +:+ required_dir +:+ "' is empty"]
               | _ => []
               end)
            (order (required_dirs ∖ (required_dirs ∖ found))) = []) as ->.
  { apply VerifyFacts.flat_map_nil. intros r Hr.
    apply VerifyFacts.found_dir_not_empty.
    rewrite Horder, elem_of_elements in Hr.
    apply elem_of_difference in Hr as [Hr Hnm].
    destruct (decide (r ∈ found)) as [|Hnf]; [done|].
    exfalso. apply Hnm. by apply elem_of_difference. }
  rewrite app_nil_r.
  destruct (decide (required_dirs ∖ found = ∅)) as [->|Hne].
  - by rewrite decide_False by (by intros H; apply H).
  - by rewrite decide_True.
Qed.



(** X4: The archive generated from a well-formed device that passes the
    fingerprint test passes the verification that precedes a restore: it
    is valid and no issue is listed. *)
Theorem generated_archive_verifies :
  ∀ (order : gset string → list string) (root : node)
    (timestamp mount backups_dir archive_path : string)
    (members : list TarInfo) (at_path : string → option tarball)
    (backup_path : string),
    (∀ s, order s ≡ₚ elements s) →
    well_formed root = true →
    (is_op1_drive (view root) mount).1 = true →
    generate_archive root timestamp mount backups_dir = Ok (archive_path, members) →
    at_path backup_path = Some (Archive members) →
    BackupsMore.verify_backup_before_restore order at_path backup_path = (true, []).
Proof.
  intros order root ts mount bdir apath members at_path bpath
    Horder Hwf Hop Hgen Hat.
  unfold BackupsMore.verify_backup_before_restore.
  rewrite (verify_readable order at_path bpath members Horder Hat).
  rewrite decide_True; [done|].
  destruct (RestoreFacts.generate_archive_inv _ _ _ _ _ _ Hgen) as (es & Hes & ->).
  assert (well_formed (Dir es) = true) as Hwfd
    by (by apply (well_formed_lookup _ _ _ Hwf Hes)).
  pose proof (well_formed_dir es Hwfd) as [Hnd Hall].
  apply Op1Facts.is_op1_drive_true in Hop as (folders & Hf & Hbase).
  assert (listdir (view root) (PosixPath.normpath mount) = Ok (map fst es)) as Hls.
  { cbn [listdir view]. unfold scandir. by rewrite Hes. }
  rewrite (Op1Facts.get_visible_folders_ok _ _ _ Hls) in Hf.
  2:{ intros Hin. apply list_elem_of_fmap in Hin as (e & He1 & He).
      destruct (Hall e He) as [Hc _]. rewrite <- He1 in Hc. done. }
  injection Hf as <-.
  apply set_eq. intros r. rewrite elem_of_difference.
  split; [|by intros ?%not_elem_of_empty].
  intros [Hr Hnf]. exfalso. apply Hnf. rewrite required_is_base in Hr.
  specialize (Hbase r Hr).
  apply list_elem_of_In, filter_In in Hbase as [Hbase _].
  apply filter_In in Hbase as [Hin Hvis].
  apply list_elem_of_In, list_elem_of_fmap in Hin as (e & -> & He).
  apply elem_of_list_to_set, list_elem_of_fmap.
  exists (member_of [e.1] e.2). split.
  - destruct (Hall e He) as [Hc _].
    by rewrite top_level_dir_member by (done || by constructor).
  - apply (generate_complete _ es Hwfd); [done| |].
    + constructor; [|done]. unfold Op1Facts.visible in Hvis.
      by apply negb_true_iff in Hvis.
    + simpl. rewrite (elem_child es e.1 e.2 Hnd); [done|by destruct e].
Qed.

Lemma generated_archive_verifies_witness :
  BackupsMore.verify_backup_before_restore elements
    (Scenario.one_archive RestoreFacts.plain_archive.1 RestoreFacts.plain_archive.2)
    RestoreFacts.plain_archive.1
  = (true, []).
Proof.
  apply (generated_archive_verifies elements Scenario.plain_root
           "2024-01-01-000000" "/Volumes/OP-1" "/backups"
           RestoreFacts.plain_archive.1 RestoreFacts.plain_archive.2).
  - intros s. reflexivity.
  - vm_compute. reflexivity.
  - vm_compute. reflexivity.
  - vm_compute. reflexivity.
  - vm_compute. reflexivity.
Defined.

End ArchiveFacts.

(** ** Restores: what is left alone, failures, progress *)

Module RestoreMoreFacts.
Import Fs Tar Backups Op1 PathFacts TreeFacts GenerateFacts RestoreFacts
       FloatFacts ProgressFacts.





(** *** Failures *)

Lemma extract_all_app mount total callback l1 l2 :
  ∀ i st,
    extract_all mount total callback i (l1 ++ l2) st
    = match extract_all mount total callback i l1 st with
      | (Ok _, st1) =>
          extract_all mount total callback (i + Z.of_nat (length l1)) l2 st1
      | (Raise e, st1) => (Raise e, st1)
      end.
Proof.
  induction l1 as [|m l1 IH]; intros i st.
  - simpl. by rewrite Z.add_0_r.
  - cbn [app extract_all]. destruct (Tar.extract _ _ _) as [t|e]; [|done].
    rewrite IH. destruct (extract_all _ _ _ _ l1 _) as [[[]|e] st1]; [|done].
    f_equal. simpl length. lia.
Qed.

(** The tree a run of extractions ends with does not depend on the
    callback, on the total or on the index the run starts with. *)
Lemma extract_all_tree mount members :
  ∀ total1 cb1 i1 st1 total2 cb2 i2 st2,
    tree st1 = tree st2 →
    (extract_all mount total1 cb1 i1 members st1).1
    = (extract_all mount total2 cb2 i2 members st2).1
    ∧ tree (extract_all mount total1 cb1 i1 members st1).2
      = tree (extract_all mount total2 cb2 i2 members st2).2.
Proof.
  induction members as [|m members IH];
    intros total1 cb1 i1 st1 total2 cb2 i2 st2 Htree; [done|].
  cbn [extract_all]. rewrite Htree.
  destruct (Tar.extract _ _ _) as [t|e]; [|done]. by apply IH.
Qed.

(** With a callback, one value is reported per member extracted. *)
Lemma extract_all_reported_any mount total members :
  ∀ i st,
    ∃ k, (k ≤ length members)%nat
         ∧ reported (extract_all mount total true i members st).2
           = reported st ++ map (fun j => progress j total) (seqZ i (Z.of_nat k))
         ∧ ((extract_all mount total true i members st).1 = Ok ()
            → k = length members).
Proof.
  induction members as [|m members IH]; intros i st.
  - exists 0%nat. simpl. by rewrite app_nil_r.
  - cbn [extract_all]. destruct (Tar.extract _ _ _) as [t|e].
    + destruct (IH (i + 1)
                  {| tree := t; reported := reported st ++ [progress i total] |})
        as (k & Hk & Hrep & Hok).
      exists (S k). split_and!; [simpl; lia| |by intros ->%Hok].
      rewrite Hrep. cbn [reported]. rewrite <- app_assoc. f_equal.
      rewrite (seqZ_cons i (Z.of_nat (S k))) by lia.
      simpl map. do 3 f_equal. lia.
    + exists 0%nat. split_and!; [simpl; lia| |done].
      simpl. by rewrite app_nil_r.
Qed.

Lemma restore_archive_run at_path root archive_path mount callback members :
  at_path (PosixPath.normpath archive_path) = Some (Archive members) →
  (is_valid_mount (view root) mount).1 = true →
  (restore_archive at_path root archive_path mount callback).1.2
  = (extract_all (PosixPath.normpath mount) (Z.of_nat (length members)) callback 0
       members {| tree := root; reported := [] |}).2
  ∧ (restore_archive at_path root archive_path mount callback).1.1
    = match (extract_all (PosixPath.normpath mount) (Z.of_nat (length members))
               callback 0 members {| tree := root; reported := [] |}).1 with
      | Ok _ => Ok ()
      | Raise e =>
          Raise (Exn RuntimeError ("Failed to restore backup: " +:+ exn_msg e))
      end.
Proof.
  intros Hat Hvalid. unfold restore_archive, open_members.
  rewrite Hat, decide_False by done.
  rewrite RefusalFacts.is_valid_mount_normpath.
  destruct (is_valid_mount (view root) mount) as [valid out].
  cbn [fst] in Hvalid. subst valid. cbn [negb].
  by destruct (extract_all _ _ _ _ _ _) as [[[]|e] st'].
Qed.

(** X6: Nothing is rolled back: when the extraction of a member raises, the
    restore raises [RuntimeError] with the message of the failure, and
    the tree is left as a completed restore of the members before the
    failing one leaves it; with a callback, one value has been reported
    for each of these members. *)
Theorem restore_archive_no_rollback :
  ∀ (at_path1 at_path2 : string → option tarball) (root : node)
    (path1 path2 mount : string) (callback : bool)
    (done_ : list TarInfo) (bad : TarInfo) (rest : list TarInfo) (e : exn),
    at_path1 (PosixPath.normpath path1) = Some (Archive done_) →
    at_path2 (PosixPath.normpath path2) = Some (Archive (done_ ++ bad :: rest)) →
    (restore_archive at_path1 root path1 mount callback).1.1 = Ok () →
    Tar.extract (tree (restore_archive at_path1 root path1 mount callback).1.2)
      {| name := PosixPath.normpath (name bad); typ := typ bad |}
      (PosixPath.normpath mount) = Raise e →
    let result := restore_archive at_path2 root path2 mount callback in
    result.1.1
    = Raise (Exn RuntimeError ("Failed to restore backup: " +:+ exn_msg e))
    ∧ tree result.1.2
      = tree (restore_archive at_path1 root path1 mount callback).1.2
    ∧ (callback = true → length (reported result.1.2) = length done_).
Proof.
  intros at1 at2 root p1 p2 mount callback done_ bad rest e
    Hat1 Hat2 Hok Hbad result.
  assert ((is_valid_mount (view root) mount).1 = true) as Hvalid.
  { unfold restore_archive in Hok. rewrite Hat1, decide_False in Hok by done.
    rewrite RefusalFacts.is_valid_mount_normpath in Hok.
    by destruct (is_valid_mount (view root) mount) as [[] out]. }
  destruct (restore_archive_run at1 root p1 mount callback done_ Hat1 Hvalid)
    as [Hst1 Hres1].
  destruct (restore_archive_run at2 root p2 mount callback _ Hat2 Hvalid)
    as [Hst2 Hres2].
  subst result. rewrite Hst2, Hres2. rewrite Hst1, Hres1 in *.
  set (total1 := Z.of_nat (length done_)) in *.
  set (total2 := Z.of_nat (length (done_ ++ bad :: rest))) in *.
  set (st0 := {| tree := root; reported := [] |}) in *.
  destruct (extract_all_tree (PosixPath.normpath mount) done_
              total1 callback 0 st0 total2 callback 0 st0 eq_refl)
    as [Hsame Htree].
  rewrite extract_all_app.
  destruct (extract_all (PosixPath.normpath mount) total1 callback 0 done_ st0)
    as [r1 s1] eqn:Hrun1.
  destruct (extract_all (PosixPath.normpath mount) total2 callback 0 done_ st0)
    as [r2 s2] eqn:Hrun2.
  cbn [fst snd] in *. subst r2. destruct r1 as [[]|e1]; [|done].
  cbn [extract_all]. rewrite <- Htree, Hbad. cbn [fst snd].
  split_and!; [done|done|].
  intros ->.
  destruct (extract_all_reported_any (PosixPath.normpath mount) total2 done_ 0 st0)
    as (k & _ & Hrep & Hk).
  rewrite Hrun2 in Hrep, Hk. cbn [fst snd] in Hrep, Hk.
  rewrite Hrep, (Hk eq_refl). cbn [reported st0 app].
  by rewrite length_map, length_seqZ, Nat2Z.id.
Qed.

(** An archive whose second member is a file called [album]. *)
Definition clashing_members : list TarInfo :=
  [ {| name := "tape/new.aif"; typ := RegFile "NEW" |};
    {| name := "album"; typ := RegFile "X" |};
    {| name := "synth/late.aif"; typ := RegFile "LATE" |} ].

Lemma restore_archive_no_rollback_witness :
  let result :=
    restore_archive (Scenario.one_archive "/backups/c.tar.xz" clashing_members)
      Scenario.target_root "/backups/c.tar.xz" "/mnt/op1" true in
  result.1.1
  = Raise (Exn RuntimeError
             ("Failed to restore backup: "
              +:+ exn_msg (Exn IsADirectoryError "Is a directory")))
  ∧ tree result.1.2
    = tree (restore_archive
              (Scenario.one_archive "/backups/a.tar.xz"
                 [ {| name := "tape/new.aif"; typ := RegFile "NEW" |} ])
              Scenario.target_root "/backups/a.tar.xz" "/mnt/op1" true).1.2
  ∧ (true = true →
     length (reported result.1.2)
     = length [ {| name := "tape/new.aif"; typ := RegFile "NEW" |} ]).
Proof.
  apply (restore_archive_no_rollback
           (Scenario.one_archive "/backups/a.tar.xz"
              [ {| name := "tape/new.aif"; typ := RegFile "NEW" |} ])
           (Scenario.one_archive "/backups/c.tar.xz" clashing_members)
           Scenario.target_root "/backups/a.tar.xz" "/backups/c.tar.xz"
           "/mnt/op1" true
           [ {| name := "tape/new.aif"; typ := RegFile "NEW" |} ]
           {| name := "album"; typ := RegFile "X" |}
           [ {| name := "synth/late.aif"; typ := RegFile "LATE" |} ]).
  - vm_compute. reflexivity.
  - vm_compute. reflexivity.
  - vm_compute. reflexivity.
  - vm_compute. reflexivity.
Defined.

End RestoreMoreFacts.

(** ** The values a restore reports, and the progress bar they drive *)

Module BarFacts.
Import Fs Tar Backups Op1 FloatFacts ProgressFacts RestoreMoreFacts RestoreCommand.

Lemma percent_nonneg num den : 0 < num → num <= den → 0 <= percent num den.
Proof.
  intros Hnum Hle. unfold percent. rewrite of_int_100.
  destruct (true_div_unit num den Hnum Hle) as [Hs Hm].
  set (x := PyFloat.true_div num den) in *.
  rewrite mul_hundred by lia.
  destruct (percent_scope (PyFloat.mant x) (- PyFloat.expo x) Hs Hm)
    as (Hn & Hd & Hsmall).
  destruct (round_ratio_spec _ _ Hn Hd Hsmall) as (Hexp & _ & _).
  pose proof (round_ratio_mant _ _ Hn Hd Hsmall) as [Hlo _].
  set (y := PyFloat.round_ratio _ _) in *.
  unfold PyFloat.to_int, PyFloat.ratio_of.
  rewrite (proj2 (Z.leb_gt 0 (PyFloat.expo y))) by lia.
  apply Z.div_pos; [lia|]. apply pow2_pos. lia.
Qed.

Lemma progress_range i total : 0 <= i → i < total → 0 <= progress i total <= 100.
Proof.
  intros Hi Hlt. split.
  - rewrite progress_percent. apply percent_nonneg; lia.
  - rewrite <- (progress_last total) by lia. apply progress_mono; lia.
Qed.

(** X7: Whatever the outcome of a restore, each value handed to the callback
    lies between 0 and 100, there are no more of them than the archive has
    members, and without a callback there is none. *)
Theorem restore_archive_reported_range :
  ∀ (at_path : string → option tarball) (root : node)
    (archive_path mount : string) (callback : bool),
    let r := reported (restore_archive at_path root archive_path mount
                         callback).1.2 in
    (∀ x, x ∈ r → 0 <= x <= 100)
    ∧ (∀ members,
         at_path (PosixPath.normpath archive_path) = Some (Archive members) →
         (length r ≤ length members)%nat)
    ∧ (callback = false → r = []).
Proof.
  intros at_path root archive_path mount callback r.
  assert (∀ members,
            open_members at_path (PosixPath.normpath archive_path) = Ok members →
            (is_valid_mount (view root) mount).1 = true →
            r = reported
                  (extract_all (PosixPath.normpath mount)
                     (Z.of_nat (length members)) callback 0 members
                     {| tree := root; reported := [] |}).2) as Hrun.
  { intros members Hopen Hvalid. subst r. unfold restore_archive.
    unfold open_members in Hopen.
    destruct (at_path (PosixPath.normpath archive_path)) as [[msg|ms]|] eqn:Hat;
      [done| |done].
    injection Hopen as ->. rewrite decide_False by done.
    rewrite RefusalFacts.is_valid_mount_normpath.
    destruct (is_valid_mount (view root) mount) as [valid out].
    cbn [fst] in Hvalid. subst valid. cbn [negb].
    unfold open_members. rewrite Hat.
    by destruct (extract_all _ _ _ _ _ _) as [[[]|e] st']. }
  assert (∀ members,
            ¬ (open_members at_path (PosixPath.normpath archive_path) = Ok members
               ∧ (is_valid_mount (view root) mount).1 = true) →
            at_path (PosixPath.normpath archive_path) = Some (Archive members) →
            r = []) as Hearly.
  { intros members Hnot Hat. subst r. unfold restore_archive.
    rewrite decide_False by (by rewrite Hat).
    rewrite RefusalFacts.is_valid_mount_normpath.
    destruct (is_valid_mount (view root) mount) as [[] out]; [|done].
    exfalso. apply Hnot. unfold open_members. by rewrite Hat. }
  assert (∀ i total members st,
            reported st = [] → callback = false →
            reported (extract_all (PosixPath.normpath mount) total callback i
                        members st).2 = []) as Hquiet.
  { intros i total members st Hst ->. revert i st Hst.
    induction members as [|m members IH]; intros i st Hst; [done|].
    cbn [extract_all]. destruct (Tar.extract _ _ _) as [t|e]; [|done].
    by apply IH. }
  destruct (at_path (PosixPath.normpath archive_path)) as [[msg|members]|] eqn:Hat.
  - assert (r = []) as ->; [|split_and!; [by intros x ?%elem_of_nil|done|done]].
    subst r. unfold restore_archive, open_members. rewrite Hat.
    rewrite decide_False by done.
    rewrite RefusalFacts.is_valid_mount_normpath.
    by destruct (is_valid_mount (view root) mount) as [[] out].
  - destruct (decide ((is_valid_mount (view root) mount).1 = true)) as [Hvalid|Hno].
    + assert (open_members at_path (PosixPath.normpath archive_path) = Ok members)
        as Hopen by (unfold open_members; by rewrite Hat).
      rewrite (Hrun members Hopen Hvalid).
      destruct callback.
      * destruct (extract_all_reported_any (PosixPath.normpath mount)
                    (Z.of_nat (length members)) members 0
                    {| tree := root; reported := [] |}) as (k & Hk & -> & _).
        cbn [reported app]. split_and!; [| |done].
        -- intros x Hx. apply list_elem_of_In, in_map_iff in Hx as (j & <- & Hj).
           apply list_elem_of_In, elem_of_seqZ in Hj.
           apply progress_range; lia.
        -- intros ms [= <-]. rewrite length_map, length_seqZ. lia.
      * rewrite Hquiet by done.
        split_and!; [by intros x ?%elem_of_nil|simpl; lia|done].
    + rewrite (Hearly members) by (done || by intros [_ ?]).
      split_and!; [by intros x ?%elem_of_nil|simpl; lia|done].
  - assert (r = []) as ->; [|split_and!; [by intros x ?%elem_of_nil|done|done]].
    subst r. unfold restore_archive. by rewrite Hat, decide_True.
Qed.

(** *** The progress bar of [commands/restore.py] *)

(** The steps handed to the bar: each value less the one before. *)
Fixpoint steps_from (position : Z) (values : list Z) : list Z :=
  match values with
  | [] => []
  | x :: rest => (x - position) :: steps_from x rest
  end.

Lemma default_last_cons (p x : Z) values :
  default p (last (x :: values)) = default x (last values).
Proof.
  destruct values as [|y values]; [done|]. rewrite last_cons_cons.
  destruct (last (y :: values)) eqn:E; [done|]. by apply last_None in E.
Qed.

Lemma fold_update_progress values :
  ∀ b steps,
    fold_left update_progress values (b, steps)
    = ({| pos := default (pos b) (last values) |},
       steps ++ steps_from (pos b) values).
Proof.
  induction values as [|x values IH]; intros [p] steps.
  - simpl. by rewrite app_nil_r.
  - cbn [fold_left update_progress steps_from pos bar_update].
    rewrite IH. unfold bar_update. cbn [pos].
    replace (p + (x - p)) with x by lia.
    rewrite <- app_assoc. cbn [app]. by rewrite default_last_cons.
Qed.

Lemma steps_from_length p values : length (steps_from p values) = length values.
Proof. revert p. induction values as [|x values IH]; intros p; simpl; by f_equal. Qed.

Lemma steps_from_sum p values :
  foldr Z.add 0 (steps_from p values) = default p (last values) - p.
Proof.
  revert p. induction values as [|x values IH]; intros p.
  - simpl. lia.
  - cbn [steps_from foldr]. rewrite IH, default_last_cons. lia.
Qed.

Lemma steps_from_progress total (k : nat) :
  ∀ i p,
    0 <= i → i + Z.of_nat k <= total →
    p <= progress i total →
    Forall (Z.le 0)
      (steps_from p (map (fun j => progress j total) (seqZ i (Z.of_nat k)))).
Proof.
  induction k as [|k IH]; intros i p Hi Hk Hp; [constructor|].
  rewrite (seqZ_cons i (Z.of_nat (S k))) by lia.
  cbn [map steps_from]. constructor; [lia|].
  replace (Z.pred (Z.of_nat (S k))) with (Z.of_nat k) by lia.
  destruct k as [|k]; [constructor|].
  apply IH; [lia|lia|]. apply progress_mono; lia.
Qed.

(** X8: The callback of [commands/restore.py] moves the bar by the difference
    between the value reported and the position of the bar. Driven by the
    values of a restore that completes, from an archive with a member, the
    bar is moved once per member, never backwards, by 100 in all, and
    ends at 100. *)
Theorem restore_progress_bar :
  ∀ (at_path : string → option tarball) (root : node)
    (archive_path mount : string) (members : list TarInfo),
    at_path (PosixPath.normpath archive_path) = Some (Archive members) →
    (restore_archive at_path root archive_path mount true).1.1 = Ok () →
    members ≠ [] →
    let r := reported (restore_archive at_path root archive_path mount true).1.2 in
    pos (drive_bar r).1 = 100
    ∧ length (drive_bar r).2 = length members
    ∧ Forall (Z.le 0) (drive_bar r).2
    ∧ foldr Z.add 0 (drive_bar r).2 = 100.
Proof.
  intros at_path root archive_path mount members Hat Hok Hne r.
  destruct (restore_archive_completes _ _ _ _ _ _ Hok Hat) as (st' & Hrun & Hst).
  apply extract_all_reported in Hrun. cbn [reported app] in Hrun.
  set (total := Z.of_nat (length members)) in *.
  assert (r = map (fun i => progress i total) (seqZ 0 total)) as Hr
    by (subst r; by rewrite Hst).
  assert (0 < total) as Hpos by (subst total; destruct members; [done|simpl; lia]).
  assert (last r = Some 100) as Hlast.
  { rewrite Hr. change (map ?f ?l) with (f <$> l). rewrite fmap_last.
    replace (seqZ 0 total) with (seqZ 0 (Z.of_nat (S (Z.to_nat (total - 1)))))
      by (f_equal; lia).
    rewrite seqZ_S, last_snoc. cbn [fmap option_fmap option_map].
    f_equal. rewrite <- (progress_last total) by lia. f_equal. lia. }
  unfold drive_bar. rewrite fold_update_progress. cbn [fst snd pos app].
  rewrite Hlast. cbn. split_and!.
  - done.
  - rewrite steps_from_length, Hr, length_map, length_seqZ. subst total. lia.
  - rewrite Hr. apply steps_from_progress; [lia|lia|].
    apply progress_range; lia.
  - rewrite steps_from_sum, Hlast. simpl. lia.
Qed.

Lemma restore_progress_bar_witness :
  let r := reported
             (restore_archive
                (Scenario.one_archive "/backups/b.tar.xz" Scenario.three_members)
                Scenario.target_root "/backups/b.tar.xz" "/mnt/op1" true).1.2 in
  pos (drive_bar r).1 = 100
  ∧ length (drive_bar r).2 = length Scenario.three_members
  ∧ Forall (Z.le 0) (drive_bar r).2
  ∧ foldr Z.add 0 (drive_bar r).2 = 100.
Proof.
  apply (restore_progress_bar
           (Scenario.one_archive "/backups/b.tar.xz" Scenario.three_members)
           Scenario.target_root "/backups/b.tar.xz" "/mnt/op1"
           Scenario.three_members).
  - vm_compute. reflexivity.
  - vm_compute. reflexivity.
  - discriminate.
Defined.

End BarFacts.

(** ** Finding the device: waiting, connection, validity *)

Module WaitFacts.
Import Fs Backups Op1 Op1Wait Op1Facts.

(** Among the first [n] values of [f], either none is a success or there
    is a first success. *)
Lemma first_success {A} (f : nat → option A) (n : nat) :
  (∀ i, (i < n)%nat → f i = None)
  ∨ ∃ k a, (k < n)%nat ∧ f k = Some a ∧ ∀ j, (j < k)%nat → f j = None.
Proof.
  induction n as [|n [Hnone|(k & a & Hk & Ha & Hfirst)]].
  - left. intros i Hi. lia.
  - destruct (f n) as [a|] eqn:Hn.
    + right. exists n, a. split_and!; [lia|done|]. intros j Hj. apply Hnone. lia.
    + left. intros i Hi. destruct (decide (i = n)) as [->|]; [done|].
      apply Hnone. lia.
  - right. exists k, a. split_and!; [lia|done|done].
Qed.

Lemma wait_loop_none timeline timeout attempts :
  ∀ i,
    (∀ k, (k < attempts)%nat → (find_op1_mount (timeline (i + k)%nat)).1 = None) →
    (wait_loop timeline timeout attempts i).1.1 = None
    ∧ (wait_loop timeline timeout attempts i).2 = attempts
    ∧ last (wait_loop timeline timeout attempts i).1.2
      = Some "Timed out waiting for mount.".
Proof.
  induction attempts as [|attempts IH]; intros i Hnone; [done|].
  cbn [wait_loop].
  pose proof (Hnone 0%nat ltac:(lia)) as H0. rewrite Nat.add_0_r in H0.
  destruct (find_op1_mount (timeline i)) as [r out]. cbn [fst] in H0. subst r.
  destruct (IH (S i)) as (Hr & Hs & Hl).
  { intros k Hk. replace (S i + k)%nat with (i + S k)%nat by lia.
    apply Hnone. lia. }
  destruct (wait_loop timeline timeout attempts (S i)) as [[r' out'] sleeps].
  cbn [fst snd] in *. split_and!; [done|by f_equal|].
  rewrite last_cons. rewrite last_app, Hl. done.
Qed.

Lemma wait_loop_some timeline timeout attempts p :
  ∀ k i,
    (k < attempts)%nat →
    (find_op1_mount (timeline (i + k)%nat)).1 = Some p →
    (∀ j, (j < k)%nat → (find_op1_mount (timeline (i + j)%nat)).1 = None) →
    (wait_loop timeline timeout attempts i).1.1 = Some p
    ∧ (wait_loop timeline timeout attempts i).2 = k.
Proof.
  induction attempts as [|attempts IH]; intros k i Hk Hp Hfirst; [lia|].
  cbn [wait_loop]. destruct k as [|k].
  - rewrite Nat.add_0_r in Hp.
    destruct (find_op1_mount (timeline i)) as [r out]. cbn [fst] in Hp.
    by subst r.
  - pose proof (Hfirst 0%nat ltac:(lia)) as H0. rewrite Nat.add_0_r in H0.
    destruct (find_op1_mount (timeline i)) as [r out]. cbn [fst] in H0. subst r.
    destruct (IH k (S i)) as [Hr Hs].
    + lia.
    + by replace (S i + k)%nat with (i + S k)%nat by lia.
    + intros j Hj. replace (S i + j)%nat with (i + S j)%nat by lia.
      apply Hfirst. lia.
    + destruct (wait_loop timeline timeout attempts (S i)) as [[r' out'] sleeps].
      cbn [fst snd] in *. split; [done|by f_equal].
Qed.

(** X9: [wait_for_op1_mount(timeout)] looks for the mount at most [timeout]
    times. It returns the mount of the first attempt that finds one, after
    one sleep per failed attempt before it; it returns [None] exactly when
    all [timeout] attempts fail, after [timeout] sleeps and with the
    time-out message printed last. A timeout that is not positive makes no
    attempt at all. *)
Theorem wait_for_op1_mount_first_success :
  ∀ (timeline : nat → machine) (timeout : Z),
    let result := wait_for_op1_mount timeline timeout in
    let found i := (find_op1_mount (timeline i)).1 in
    (∀ p, result.1.1 = Some p ↔
          ∃ k, (k < Z.to_nat timeout)%nat ∧ found k = Some p
               ∧ (∀ j, (j < k)%nat → found j = None)
               ∧ result.2 = k)
    ∧ (result.1.1 = None ↔ ∀ i, (i < Z.to_nat timeout)%nat → found i = None)
    ∧ (result.1.1 = None →
       result.2 = Z.to_nat timeout
       ∧ last result.1.2 = Some "Timed out waiting for mount.")
    ∧ (timeout <= 0 →
       result = (None, ["Timed out waiting for mount."], 0%nat)).
Proof.
  intros timeline timeout result found.
  assert (timeout <= 0 →
          result = (None, ["Timed out waiting for mount."], 0%nat)) as Hzero.
  { intros Hle. subst result. unfold wait_for_op1_mount.
    by replace (Z.to_nat timeout) with 0%nat by lia. }
  subst result. unfold wait_for_op1_mount in *.
  set (n := Z.to_nat timeout) in *.
  destruct (first_success found n) as [Hnone|(k & a & Hk & Ha & Hfirst)].
  - destruct (wait_loop_none timeline timeout n 0 Hnone) as (Hr & Hs & Hl).
    split_and!; [|done|done|done].
    intros p. rewrite Hr. split; [done|].
    intros (k & Hk & Hp & _). by rewrite Hnone in Hp.
  - destruct (wait_loop_some timeline timeout n a k 0 Hk Ha Hfirst) as [Hr Hs].
    split_and!; [| |by rewrite Hr|done].
    + intros p. rewrite Hr. split.
      * intros [= <-]. by exists k.
      * intros (k' & Hk' & Hp & Hfirst' & _).
        destruct (Nat.lt_trichotomy k k') as [Hlt|[->|Hgt]].
        -- by rewrite (Hfirst' k Hlt) in Ha.
        -- subst found. cbn in Ha, Hp. congruence.
        -- by rewrite (Hfirst k' Hgt) in Hp.
    + rewrite Hr. split; [done|]. intros Hall. by rewrite (Hall k Hk) in Ha.
Qed.

Lemma any_op1_drive_first os drives :
  (any_op1_drive os drives).1 = true ↔ (first_op1 os drives).1 ≠ None.
Proof.
  induction drives as [|d drives IH]; cbn [any_op1_drive first_op1].
  - split; [done|]. by intros [].
  - destruct (is_op1_drive os d) as [[] out]; [done|].
    destruct (any_op1_drive os drives) as [r o].
    destruct (first_op1 os drives) as [r' o']. done.
Qed.

Lemma elem_of_removable_among drive_type letters d :
  d ∈ removable_among drive_type letters ↔
  ∃ letter, letter ∈ letters ∧ d = String letter ":\"
            ∧ drive_type d = Ok DRIVE_REMOVABLE.
Proof.
  induction letters as [|l letters IH]; cbn [removable_among].
  - split; [by intros ?%elem_of_nil|]. by intros (? & ?%elem_of_nil & _).
  - assert ((d = String l ":\" ∧ drive_type d = Ok DRIVE_REMOVABLE)
            ∨ d ∈ removable_among drive_type letters
            ↔ ∃ letter, letter ∈ l :: letters ∧ d = String letter ":\"
                        ∧ drive_type d = Ok DRIVE_REMOVABLE) as Hgoal.
    { rewrite IH. split.
      - intros [[-> Ht]|(letter & Hin & -> & Ht)].
        + exists l. split_and!; [left|done|done].
        + exists letter. split_and!; [by right|done|done].
      - intros (letter & [->|Hin]%elem_of_cons & -> & Ht); [by left|].
        right. by exists letter. }
    rewrite <- Hgoal.
    destruct (drive_type (String l ":\")) as [t|e] eqn:Ht.
    + destruct (decide (t = DRIVE_REMOVABLE)) as [->|Hne].
      * rewrite elem_of_cons. split; [intros [->|?]; auto|].
        intros [[-> _]|?]; auto.
      * split; [auto|]. intros [[-> Hd]|?]; [|done]. congruence.
    + split; [auto|]. intros [[-> Hd]|?]; [|done]. congruence.
Qed.

(** X10: On Windows [is_connected] and [find_op1_mount] agree: the first
    answers yes exactly when the second finds a drive, and the drive found
    is one of the letters [A:\] to [Z:\] that [GetDriveType] reports as
    removable and that [is_op1_drive] accepts. [is_connected] does not end
    the program there. Both put the same test to the same drives in the
    same order, which is all the statement rests on. *)
Theorem is_connected_windows :
  ∀ (m : machine) (pyusb : option bool),
    Mount.system (host m) = Windows →
    ((is_connected m pyusb).1 = Returns true ↔
     ∃ drive, (find_op1_mount m).1 = Some drive)
    ∧ ((is_connected m pyusb).1 = Returns false ↔ (find_op1_mount m).1 = None)
    ∧ (∀ drive, (find_op1_mount m).1 = Some drive →
         (∃ letter, letter ∈ Mount.ascii_uppercase ∧ drive = String letter ":\")
         ∧ GetDriveType m drive = Ok DRIVE_REMOVABLE
         ∧ (is_op1_drive (os m) drive).1 = true).
Proof.
  intros m pyusb Hwin. unfold is_connected, find_op1_mount.
  rewrite !decide_True by done.
  pose proof (any_op1_drive_first (os m) (get_removable_drives m)) as Hany.
  destruct (any_op1_drive (os m) (get_removable_drives m)) as [r out].
  cbn [fst] in *. split_and!.
  - split.
    + intros [= ->]. destruct (first_op1 _ _) as [[d|] o]; [by exists d|].
      exfalso. by apply Hany.
    + intros [d Hd]. f_equal. apply Hany. by rewrite Hd.
  - split.
    + intros [= ->]. destruct (first_op1 _ _) as [[d|] o]; [|done].
      cbn [fst] in *. destruct Hany as [_ Hno]. by specialize (Hno ltac:(done)).
    + intros Hnone. f_equal. destruct r; [|done].
      by destruct Hany as [Hyes _]; specialize (Hyes eq_refl).
  - intros drive (l1 & l2 & Hl & Hop & _)%first_op1_some.
    assert (drive ∈ get_removable_drives m) as Hin
      by (rewrite Hl; apply elem_of_app; right; left).
    unfold get_removable_drives in Hin. rewrite decide_False in Hin by tauto.
    apply elem_of_removable_among in Hin as (letter & Hletter & -> & Ht).
    split_and!; [by exists letter|done|done].
Qed.

(** A Windows machine with the device as the removable drive [E:\]. *)
Definition windows_machine : machine := {|
  host := {| Mount.system := Windows; Mount.system_drive := None;
             Mount.logical_drives := 20;
             Mount.mount_command := {| returncode := 0; stdout := None |} |};
  os := view (Dir [("E:\", Scenario.op1_device)]);
  GetDriveType := fun drive => if decide (drive = "E:\") then Ok 2 else Ok 3
|}.

Lemma is_connected_windows_witness :
  ((is_connected windows_machine None).1 = Returns true ↔
   ∃ drive, (find_op1_mount windows_machine).1 = Some drive)
  ∧ ((is_connected windows_machine None).1 = Returns false ↔
     (find_op1_mount windows_machine).1 = None)
  ∧ (∀ drive, (find_op1_mount windows_machine).1 = Some drive →
       (∃ letter, letter ∈ Mount.ascii_uppercase ∧ drive = String letter ":\")
       ∧ GetDriveType windows_machine drive = Ok DRIVE_REMOVABLE
       ∧ (is_op1_drive (os windows_machine) drive).1 = true).
Proof. apply (is_connected_windows windows_machine None). reflexivity. Defined.

(** X11: The mount [find_op1_mount] returns is one [restore_archive] accepts:
    on a file system that is a tree, it passes [is_valid_mount], so a
    restore onto it does not raise [ValueError]. *)
Theorem find_op1_mount_is_valid :
  ∀ (m : machine) (root : node) (mount_point : string),
    os m = view root →
    (find_op1_mount m).1 = Some mount_point →
    (is_valid_mount (view root) mount_point).1 = true
    ∧ ∀ (at_path : string → option Tar.tarball) (archive_path : string)
        (callback : bool) (e : exn),
        (restore_archive at_path root archive_path mount_point callback).1.1
        = Raise e →
        exn_cls e ≠ ValueError.
Proof.
  intros m root mount_point Hos Hfound.
  rewrite find_op1_mount_first in Hfound.
  apply first_op1_some in Hfound as (l1 & l2 & _ & Hop & _).
  rewrite Hos in Hop.
  assert ((is_valid_mount (view root) mount_point).1 = true) as Hvalid
    by (by rewrite RefusalFacts.is_valid_mount_is_op1_drive).
  split; [done|].
  intros at_path archive_path callback e. unfold restore_archive.
  destruct (decide (at_path (PosixPath.normpath archive_path) = None));
    [by intros [= <-]|].
  rewrite RefusalFacts.is_valid_mount_normpath.
  destruct (is_valid_mount (view root) mount_point) as [valid out].
  cbn [fst] in Hvalid. subst valid. cbn [negb].
  destruct (Tar.open_members _ _) as [members|e']; [|by intros [= <-]].
  destruct (extract_all _ _ _ _ _ _) as [[[]|e'] st']; [done|by intros [= <-]].
Qed.

(** A Mac with the device mounted at [/Volumes/OP-1]. *)
Definition mac_machine : machine := {|
  host := {| Mount.system := Darwin; Mount.system_drive := None;
             Mount.logical_drives := 0;
             Mount.mount_command :=
               {| returncode := 0;
                  stdout := Some
                    ("/dev/disk1s1 on / (apfs, local, journaled)" +:+ String Py.nl
                     ("/dev/disk2s1 on /Volumes/OP-1 (msdos, local, nodev, nosuid)"
                      +:+ String Py.nl "")) |} |};
  os := view Scenario.op1_root;
  GetDriveType := fun _ => Raise (Exn OtherError "not on Windows")
|}.

Lemma find_op1_mount_is_valid_witness :
  (is_valid_mount (view Scenario.op1_root) "/Volumes/OP-1").1 = true
  ∧ ∀ (at_path : string → option Tar.tarball) (archive_path : string)
      (callback : bool) (e : exn),
      (restore_archive at_path Scenario.op1_root archive_path "/Volumes/OP-1"
         callback).1.1 = Raise e →
      exn_cls e ≠ ValueError.
Proof.
  apply (find_op1_mount_is_valid mac_machine Scenario.op1_root "/Volumes/OP-1").
  - reflexivity.
  - vm_compute. reflexivity.
Defined.

End WaitFacts.

(** ** More on the mount table *)

Module MountMoreFacts.
Import Re Mount PathFacts.

(** *** What a match of the pattern says about the line *)



Lemma string_length_app (a b : string) :
  String.length (a +:+ b) = (String.length a + String.length b)%nat.
Proof.
  induction a as [|c a IH]; [done|].
  rewrite string_app_cons. simpl. by rewrite IH.
Qed.




Lemma substring_all (s rest : string) :
  substring 0 (String.length s) (s +:+ rest) = s.
Proof.
  induction s as [|c s IH]; [by destruct rest|].
  rewrite string_app_cons. simpl. by rewrite IH.
Qed.

Lemma substring_skip (a s : string) n :
  substring (String.length a) n (a +:+ s) = substring 0 n s.
Proof.
  induction a as [|c a IH]; [by rewrite string_app_nil_l|].
  rewrite string_app_cons. simpl. apply IH.
Qed.





(** *** Drives and mounts *)

Lemma elem_of_drives_of_bitmask letters :
  ∀ bitmask d,
    d ∈ drives_of_bitmask letters bitmask ↔
    ∃ (i : nat) letter,
      letters !! i = Some letter
      ∧ Z.testbit bitmask (Z.of_nat i) = true
      ∧ d = String letter ":\".
Proof.
  induction letters as [|l letters IH]; intros bitmask d;
    cbn [drives_of_bitmask].
  - split; [by intros ?%elem_of_nil|]. by intros (i & letter & ? & _).
  - rewrite elem_of_app, IH. split.
    + intros [Hhead|(i & letter & Hi & Hbit & ->)].
      * destruct (Z.testbit bitmask 0) eqn:Hbit; [|by apply elem_of_nil in Hhead].
        apply list_elem_of_singleton in Hhead as ->. by exists 0%nat, l.
      * exists (S i), letter. split_and!; [done| |done].
        rewrite Z.shiftr_spec in Hbit by lia.
        by replace (Z.of_nat (S i)) with (Z.of_nat i + 1) by lia.
    + intros ([|i] & letter & Hi & Hbit & ->).
      * left. injection Hi as ->. change (Z.of_nat 0) with 0 in Hbit.
        rewrite Hbit. by apply list_elem_of_singleton.
      * right. exists i, letter. split_and!; [done| |done].
        rewrite Z.shiftr_spec by lia.
        by replace (Z.of_nat i + 1) with (Z.of_nat (S i)) by lia.
Qed.

Lemma drives_of_bitmask_low letters :
  ∀ bitmask bitmask',
    (∀ i, 0 <= i < Z.of_nat (length letters) →
          Z.testbit bitmask i = Z.testbit bitmask' i) →
    drives_of_bitmask letters bitmask = drives_of_bitmask letters bitmask'.
Proof.
  induction letters as [|l letters IH]; intros bitmask bitmask' Hbits; [done|].
  cbn [drives_of_bitmask]. cbn [length] in Hbits.
  rewrite (Hbits 0) by lia. f_equal. apply IH. intros i Hi.
  rewrite !Z.shiftr_spec by lia. apply Hbits. lia.
Qed.

(** X13: [get_windows_drives] lists the drive of a letter exactly when the bit
    of that letter is set in the mask, bit 0 standing for [A]; the bits
    from 26 on are not looked at. *)
Theorem get_windows_drives_bits :
  ∀ (bitmask : Z),
    (∀ d, d ∈ get_windows_drives bitmask ↔
          ∃ (i : nat) letter,
            ascii_uppercase !! i = Some letter
            ∧ Z.testbit bitmask (Z.of_nat i) = true
            ∧ d = String letter ":\")
    ∧ get_windows_drives bitmask = get_windows_drives (bitmask mod 2 ^ 26)
    ∧ (length (get_windows_drives bitmask) ≤ 26)%nat.
Proof.
  intros bitmask. unfold get_windows_drives. split_and!.
  - intros d. apply elem_of_drives_of_bitmask.
  - apply drives_of_bitmask_low. intros i Hi.
    change (Z.of_nat (length ascii_uppercase)) with 26 in Hi.
    by rewrite Z.mod_pow2_bits_low by lia.
  - change 26%nat with (length ascii_uppercase).
    generalize ascii_uppercase. intros letters. revert bitmask.
    induction letters as [|l letters IH]; intros bitmask; [done|].
    cbn [drives_of_bitmask]. rewrite length_app. specialize (IH (Z.shiftr bitmask 1)).
    destruct (Z.testbit bitmask 0); simpl in *; lia.
Qed.

(** X14: What [get_potential_mounts] returns holds no excluded mount. On
    Windows the pairs are the drives of [get_windows_drives], each paired
    with itself; elsewhere they are the pairs [get_mount_from_line] reads
    off the lines of the output of the mount command. Nothing else is
    dropped. *)
Theorem get_potential_mounts_filtered :
  ∀ (h : host) (mounts : list (string * string)) (device mount : string),
    (get_potential_mounts h).1 = Some mounts →
    ((device, mount) ∈ mounts ↔
     is_poopy_mount (system h) (system_drive h) mount = false
     ∧ if decide (system h = Windows)
       then device = mount ∧ mount ∈ get_windows_drives (logical_drives h)
       else ∃ out line,
              stdout (mount_command h) = Some out
              ∧ line ∈ Py.split Py.nl out
              ∧ get_mount_from_line line = Some (device, mount)).
Proof.
  intros h mounts device mount Hm. unfold get_potential_mounts in Hm.
  destruct (decide (system h = Windows)) as [Hwin|Hunix].
  - cbn [fst] in Hm. injection Hm as <-. rewrite list_elem_of_omap. split.
    + intros (d & Hd & Hsome).
      destruct (is_poopy_mount _ _ d) eqn:Hp; [done|].
      by injection Hsome as -> ->.
    + intros (Hp & -> & Hd). exists mount. split; [done|]. by rewrite Hp.
  - destruct (decide (returncode (mount_command h) ≠ 0)); [done|].
    destruct (stdout (mount_command h)) as [out|]; [|done].
    cbn [fst] in Hm. injection Hm as <-. rewrite list_elem_of_omap. split.
    + intros (x & Hx & Hsome).
      apply list_elem_of_In, in_map_iff in Hx as (line & <- & Hline).
      destruct (get_mount_from_line line) as [[d mt]|] eqn:Hl; [|done].
      destruct (is_poopy_mount _ _ mt) eqn:Hp; [done|].
      injection Hsome as -> ->. split; [done|].
      exists out, line. split_and!; [done|by apply list_elem_of_In|done].
    + intros (Hp & out' & line & [= <-] & Hline & Hl).
      exists (Some (device, mount)). split.
      * apply list_elem_of_In, in_map_iff. exists line.
        split; [done|by apply list_elem_of_In].
      * by rewrite Hp.
Qed.

(** A Linux host with the root volume, the device and a line that is not
    a mount. *)
Definition linux_host : host := {|
  system := Linux;
  system_drive := None;
  logical_drives := 0;
  mount_command :=
    {| returncode := 0;
       stdout := Some
         ("/dev/sda2 on / (rw,relatime)" +:+ String Py.nl
          ("proc on /proc type proc (rw)" +:+ String Py.nl
           ("/dev/sdb1 on /media/op1 (rw,nosuid)" +:+ String Py.nl ""))) |}
|}.

Lemma get_potential_mounts_filtered_witness :
  ("/dev/sdb1", "/media/op1") ∈ [("/dev/sdb1", "/media/op1")] ↔
  is_poopy_mount (system linux_host) (system_drive linux_host) "/media/op1" = false
  ∧ if decide (system linux_host = Windows)
    then "/dev/sdb1" = "/media/op1"
         ∧ "/media/op1" ∈ get_windows_drives (logical_drives linux_host)
    else ∃ out line,
           stdout (mount_command linux_host) = Some out
           ∧ line ∈ Py.split Py.nl out
           ∧ get_mount_from_line line = Some ("/dev/sdb1", "/media/op1").
Proof.
  apply (get_potential_mounts_filtered linux_host [("/dev/sdb1", "/media/op1")]).
  vm_compute. reflexivity.
Defined.

(** X15: With [SystemDrive] unset, the drives offered on Windows are all the
    logical drives but [C:\], in the order of the alphabet. *)
Theorem get_potential_mounts_windows_default :
  ∀ (h : host),
    system h = Windows →
    system_drive h = None →
    get_potential_mounts h
    = (Some (map (fun drive => (drive, drive))
               (List.filter (fun drive => negb (String.eqb drive "C:\"))
                  (get_windows_drives (logical_drives h)))), []).
Proof.
  intros h Hwin Hdrive. unfold get_potential_mounts.
  rewrite decide_True by done. rewrite Hwin, Hdrive. do 2 f_equal.
  unfold get_windows_drives. generalize (logical_drives h).
  assert (Forall (fun letter =>
                    is_poopy_mount Windows None (String letter ":\")
                    = String.eqb (String letter ":\") "C:\") ascii_uppercase)
    as Hletters.
  { unfold ascii_uppercase. cbn [list_ascii_of_string].
    repeat (constructor; [vm_compute; reflexivity|]). constructor. }
  induction Hletters as [|l letters Hl _ IH]; intros bitmask; [done|].
  cbn [drives_of_bitmask]. rewrite omap_app, List.filter_app, map_app, IH. f_equal.
  destruct (Z.testbit bitmask 0); [|done].
  cbn [omap list_omap List.filter]. rewrite Hl.
  by destruct (String.eqb (String l ":\") "C:\").
Qed.

Lemma get_potential_mounts_windows_default_witness :
  get_potential_mounts WaitFacts.windows_machine.(Op1.host)
  = (Some (map (fun drive => (drive, drive))
             (List.filter (fun drive => negb (String.eqb drive "C:\"))
                (get_windows_drives
                   (logical_drives WaitFacts.windows_machine.(Op1.host))))), []).
Proof.
  apply (get_potential_mounts_windows_default
           WaitFacts.windows_machine.(Op1.host)); reflexivity.
Defined.

End MountMoreFacts.

(** ** The progress bar of a backup *)

Module BackupBarFacts.
Import Fs Tar Backups BackupsMore TreeFacts.


Lemma list_sum_cons (x : nat) l : list_sum (x :: l) = (x + list_sum l)%nat.
Proof. reflexivity. Qed.
















End BackupBarFacts.

(** ** The metadata file *)

Module MetadataMoreFacts.
Import Metadata.


End MetadataMoreFacts.

(** ** The list of commands *)

Module OpieFacts.
Import Opie PathFacts MountMoreFacts.

Local Open Scope nat_scope.

Lemma substring_nil n m : substring n m "" = "".
Proof. by destruct n, m. Qed.

Lemma substring_whole (s : string) : substring 0 (String.length s) s = s.
Proof. induction s as [|c s IH]; [done|]. simpl. by rewrite IH. Qed.

(** A text is its first [n] characters followed by the rest. *)
Lemma substring_split (s : string) :
  ∀ n, n ≤ String.length s →
       s = substring 0 n s +:+ substring n (String.length s - n) s.
Proof.
  induction s as [|c s IH]; intros n Hn.
  - simpl in Hn. by replace n with 0 by lia.
  - destruct n as [|n].
    + rewrite Nat.sub_0_r, substring_whole.
      change (substring 0 0 (String c s)) with "". by rewrite string_app_nil_l.
    + simpl in Hn. cbn [substring String.length Nat.sub].
      rewrite string_app_cons. f_equal. apply IH. lia.
Qed.

Lemma endswith_spec (s suffix : string) :
  endswith s suffix = true ↔ ∃ stem, s = stem +:+ suffix.
Proof.
  unfold endswith. rewrite andb_true_iff, Nat.leb_le, bool_decide_eq_true. split.
  - intros [Hle Hsub].
    exists (substring 0 (String.length s - String.length suffix) s).
    pose proof (substring_split s (String.length s - String.length suffix)
                  ltac:(lia)) as Hs.
    replace (String.length s - (String.length s - String.length suffix))
      with (String.length suffix) in Hs by lia.
    by rewrite Hsub in Hs.
  - intros [stem ->]. rewrite string_length_app. split; [lia|].
    replace (String.length stem + String.length suffix - String.length suffix)
      with (String.length stem) by lia.
    rewrite substring_skip. apply substring_whole.
Qed.

Lemma drop_last3_app (stem : string) : drop_last3 (stem +:+ ".py") = stem.
Proof.
  unfold drop_last3. rewrite string_length_app. simpl String.length.
  replace (String.length stem + 3 - 3) with (String.length stem) by lia.
  apply substring_all.
Qed.

Lemma elem_of_insert_name x y l : y ∈ insert_name x l ↔ y = x ∨ y ∈ l.
Proof.
  induction l as [|z l IH]; cbn [insert_name].
  - by rewrite list_elem_of_singleton, elem_of_nil; intuition.
  - destruct (String.leb x z).
    + by rewrite elem_of_cons.
    + rewrite !elem_of_cons, IH. tauto.
Qed.

Lemma elem_of_sort_names y l : y ∈ sort_names l ↔ y ∈ l.
Proof.
  induction l as [|x l IH]; [done|].
  cbn [sort_names foldr]. fold (sort_names l).
  by rewrite elem_of_insert_name, elem_of_cons, IH.
Qed.

Definition ordered (a b : string) : Prop := String.leb a b = true.

Lemma insert_name_sorted x l : Sorted ordered l → Sorted ordered (insert_name x l).
Proof.
  induction 1 as [|z l Hl IH Hz]; cbn [insert_name].
  - by repeat constructor.
  - destruct (String.leb x z) eqn:Hxz.
    + constructor; [by constructor|]. by constructor.
    + constructor; [done|].
      assert (ordered z x) as Hzx
        by (destruct (String.leb_total x z) as [H|H]; [congruence|done]).
      destruct Hz as [|w l' Hzw]; cbn [insert_name].
      * by constructor.
      * destruct (String.leb x w); by constructor.
Qed.

Lemma sort_names_sorted l : Sorted ordered (sort_names l).
Proof.
  induction l as [|x l IH]; [constructor|].
  cbn [sort_names foldr]. by apply insert_name_sorted.
Qed.

Lemma insert_name_length x l : length (insert_name x l) = S (length l).
Proof.
  induction l as [|z l IH]; [done|]. cbn [insert_name].
  destruct (String.leb x z); simpl; by rewrite ?IH.
Qed.

Lemma sort_names_length l : length (sort_names l) = length l.
Proof.
  induction l as [|x l IH]; [done|].
  cbn [sort_names foldr]. fold (sort_names l).
  by rewrite insert_name_length, IH.
Qed.

(** X18: [list_commands] offers the name [c] exactly when the file [c.py] is
    in the folder of the commands, so the file [get_command] opens for a
    name that [invoke] accepted is there. The names come in the order of
    [sort], one for each file that ends in [.py]. *)
Theorem list_commands_files :
  ∀ (listing : list string),
    (∀ c, c ∈ list_commands listing ↔ c +:+ ".py" ∈ listing)
    ∧ Sorted ordered (list_commands listing)
    ∧ length (list_commands listing)
      = length (List.filter (fun filename => endswith filename ".py") listing).
Proof.
  intros listing. unfold list_commands. split_and!.
  - intros c. rewrite elem_of_sort_names.
    rewrite list_elem_of_In, in_map_iff. split.
    + intros (f & <- & [Hf Hpy]%filter_In).
      apply endswith_spec in Hpy as [stem ->].
      rewrite drop_last3_app. by apply list_elem_of_In.
    + intros Hc. exists (c +:+ ".py"). split; [apply drop_last3_app|].
      apply filter_In. split; [by apply list_elem_of_In|].
      apply endswith_spec. by exists c.
  - apply sort_names_sorted.
  - by rewrite sort_names_length, length_map.
Qed.

End OpieFacts.

(** ** The patch counts of the storage command *)

Module StorageFacts.
Import Fs Storage PathFacts TreeFacts MountMoreFacts BackupBarFacts.

Local Open Scope nat_scope.

(** The tree without its directories called [user]. *)
Fixpoint without_user (n : node) : node :=
  match n with
  | File d => File d
  | Dir es =>
      Dir (flat_map
             (fun e =>
                if is_dir e.2 && bool_decide (e.1 = "user") then []
                else [(e.1, without_user e.2)])
             es)
  end.

Lemma without_user_is_dir n : is_dir (without_user n) = is_dir n.
Proof. by destruct n. Qed.

Lemma flat_map_flat_map {A B C} (f : A → list B) (g : B → list C) (l : list A) :
  flat_map g (flat_map f l) = flat_map (fun a => flat_map g (f a)) l.
Proof.
  induction l as [|a l IH]; [done|]. simpl. by rewrite flat_map_app, IH.
Qed.

Lemma flat_map_Forall_ext {A B} (f g : A → list B) (l : list A) :
  Forall (fun a => f a = g a) l → flat_map f l = flat_map g l.
Proof. induction 1 as [|a l Ha _ IH]; [done|]. simpl. by rewrite Ha, IH. Qed.

Lemma walk_skipping_user_without n :
  ∀ top, walk_skipping_user top (without_user n) = walk_skipping_user top n.
Proof.
  induction n as [d|es IH] using node_rect_entries; intros top; [done|].
  cbn [without_user walk_skipping_user]. f_equal.
  - f_equal. clear IH. induction es as [|[name c] es IHes]; [done|].
    destruct c as [d|es'].
    + simpl in *. by rewrite IHes.
    + simpl in *. destruct (bool_decide (name = "user")); simpl; by rewrite IHes.
  - rewrite flat_map_flat_map. apply flat_map_Forall_ext.
    eapply Forall_impl; [exact IH|]. intros [name c] Hc. cbn [fst snd] in *.
    destruct (decide (name = "user")) as [->|Hne].
    + destruct c as [d|es']; cbn [is_dir andb flat_map fst snd app].
      * by rewrite decide_True.
      * by rewrite bool_decide_eq_true_2.
    + rewrite bool_decide_eq_false_2, andb_false_r by done.
      cbn [flat_map fst snd]. rewrite decide_False, app_nil_r by done.
      apply Hc.
Qed.

(** X19: Where [dirs.remove('user')] prunes the walk, what lies inside a
    directory called [user] is not counted: two trees whose [synth] and
    [drum] folders are alike once their directories called [user] are
    taken out give the same three counts. *)
Theorem patch_counts_skip_user :
  ∀ (root root' : node) (mount_point : string),
    (∀ folder, folder = "synth" ∨ folder = "drum" →
       without_user <$> stat root (PosixPath.join mount_point folder)
       = without_user <$> stat root' (PosixPath.join mount_point folder)) →
    patch_counts root mount_point = patch_counts root' mount_point.
Proof.
  intros root root' mount_point Hsame.
  assert (∀ folder, folder = "synth" ∨ folder = "drum" →
            walked root (PosixPath.join mount_point folder)
            = walked root' (PosixPath.join mount_point folder)) as Hwalk.
  { intros folder Hf. specialize (Hsame folder Hf). unfold walked.
    destruct (stat root _) as [n|], (stat root' _) as [n'|]; try done.
    injection Hsame as Hsame.
    by rewrite <- (walk_skipping_user_without n), Hsame,
         walk_skipping_user_without. }
  unfold patch_counts.
  by rewrite (Hwalk "synth"), (Hwalk "drum") by auto.
Qed.

(** A device with a preset, a sample and a kit of the user's own. *)
Definition patches_device (user_kits : list (string * node)) : node :=
  Dir [ ("tape", Dir []); ("album", Dir []);
        ("synth", Dir [ ("cluster", Dir [("pad.aif", File "P")]);
                        ("sampling", Dir [("hit.AIF", File "H")]);
                        ("user", Dir user_kits) ]);
        ("drum", Dir [ ("kit.aif", File "K"); ("notes.txt", File "N") ]) ].

Lemma patch_counts_skip_user_witness :
  patch_counts (Dir [("mnt", Dir [("op1", patches_device [])])]) "/mnt/op1"
  = patch_counts
      (Dir [("mnt", Dir [("op1", patches_device [("mine.aif", File "M")])])])
      "/mnt/op1".
Proof.
  apply patch_counts_skip_user.
  intros folder [-> | ->]; vm_compute; reflexivity.
Defined.

Lemma startswith_app (a b p : string) :
  Py.startswith a p = true → Py.startswith (a +:+ b) p = true.
Proof.
  revert a. induction p as [|c p IH]; intros a H; [by destruct (a +:+ b)|].
  destruct a as [|c' a]; [done|]. rewrite string_app_cons. simpl in *.
  destruct (decide (c = c')); [by apply IH|done].
Qed.

Lemma contains_app (a b sub : string) :
  contains a sub = true → contains (a +:+ b) sub = true.
Proof.
  induction a as [|c a IH]; cbn [contains]; intros H.
  - rewrite orb_false_r in H. destruct sub; [|done]. by destruct (_ +:+ _).
  - rewrite string_app_cons. cbn [contains].
    apply orb_true_iff in H as [H|H]; apply orb_true_iff.
    + left. by apply (startswith_app (String c a)).
    + right. by apply IH.
Qed.

Lemma lower_app (a b : string) : lower (a +:+ b) = lower a +:+ lower b.
Proof.
  induction a as [|c a IH]; [by rewrite !string_app_nil_l|].
  rewrite string_app_cons. simpl. by rewrite IH.
Qed.

(** Joining a name that does not start with a slash onto a path that is
    not empty keeps the path in front. *)
Lemma join_keeps_front (a name : string) :
  a ≠ "" → Py.startswith name "/" = false →
  ∃ rest, PosixPath.join a name = a +:+ rest.
Proof.
  intros Ha Hname. unfold PosixPath.join. rewrite Hname, decide_False by done.
  clear Hname. destruct (Py.startswith _ "/"); [by exists name|].
  by exists ("/" +:+ name).
Qed.

Lemma clean_name_no_slash (c : string) :
  clean_name c = true → Py.startswith c "/" = false.
Proof.
  intros (Hne & _ & _ & Hsf)%clean_name_spec.
  destruct c as [|ch c]; [done|]. simpl in Hsf.
  apply andb_true_iff in Hsf as [Hch%bool_decide_eq_true _].
  simpl. destruct (decide ("/"%char = ch)) as [<-|]; [done|]. done.
Qed.

Lemma walk_skipping_user_roots n :
  well_formed n = true →
  ∀ top t, top ≠ "" → t ∈ walk_skipping_user top n →
           ∃ rest, t.1 = top +:+ rest.
Proof.
  induction n as [d|es IH] using node_rect_entries;
    intros Hwf top t Htop Ht; [by apply elem_of_nil in Ht|].
  cbn [walk_skipping_user] in Ht. apply elem_of_cons in Ht as [->|Ht].
  - exists "". by rewrite string_app_nil_r.
  - apply list_elem_of_In, in_flat_map in Ht as (e & He & Ht).
    destruct (decide (e.1 = "user")); [done|].
    destruct (well_formed_dir es Hwf) as [_ Hall].
    rewrite Forall_forall in IH.
    destruct (Hall e (proj2 (list_elem_of_In _ _) He)) as [Hclean Hwfe].
    destruct (join_keeps_front top e.1 Htop (clean_name_no_slash _ Hclean))
      as [rest Hjoin].
    destruct (IH e (proj2 (list_elem_of_In _ _) He) Hwfe (PosixPath.join top e.1) t)
      as [rest' Hroot].
    + rewrite Hjoin. intros Hempty. apply Htop. by destruct top.
    + by apply list_elem_of_In.
    + exists (rest +:+ rest'). by rewrite Hroot, Hjoin, string_app_assoc.
Qed.

Lemma count_in_split test triples :
  count_in test triples + count_in (fun r => negb (test r)) triples
  = count_in (fun _ => true) triples.
Proof.
  unfold count_in. induction triples as [|t triples IH]; [done|].
  cbn [map]. rewrite !list_sum_cons. destruct (test t.1); cbn [negb]; lia.
Qed.

Lemma count_in_none test triples :
  (∀ t, t ∈ triples → test t.1 = false) → count_in test triples = 0.
Proof.
  unfold count_in. induction triples as [|t triples IH]; intros Hall; [done|].
  cbn [map]. rewrite list_sum_cons, (Hall t) by left.
  rewrite IH; [done|]. intros t' Ht'. apply Hall. by right.
Qed.

(** X20: The test for a sampler patch looks for [sampling] in the whole
    path of the directory, mount point included: when the path of the
    mount point itself holds it, in whatever case, every [.aif] file the
    walk of [synth] meets is counted as a sampler patch and none as a
    synthesis patch. *)
Theorem patch_counts_sampling :
  ∀ (root : node) (mount_point : string),
    well_formed root = true →
    contains (lower mount_point) "sampling" = true →
    let c := patch_counts root mount_point in
    synth_synthesis_files c = 0
    ∧ synth_sampler_files c
      = count_in (fun _ => true)
          (walked root (PosixPath.join mount_point "synth")).
Proof.
  intros root mount_point Hwf Hmp c.
  assert (synth_synthesis_files c = 0) as Hzero.
  { subst c. cbn [patch_counts synth_synthesis_files].
    apply count_in_none. intros t Ht. apply negb_false_iff.
    assert (mount_point ≠ "") as Hne by (by intros ->).
    destruct (join_keeps_front mount_point "synth" Hne eq_refl) as [r0 Hjoin].
    unfold walked in Ht.
    destruct (stat root (PosixPath.join mount_point "synth")) as [n|] eqn:Hst;
      [|by apply elem_of_nil in Ht].
    unfold stat in Hst.
    destruct (walk_skipping_user_roots n
                (well_formed_lookup _ _ _ Hwf Hst)
                (PosixPath.join mount_point "synth") t) as [rest Hroot];
      [|done|].
    - rewrite Hjoin. intros Hempty. apply Hne. by destruct mount_point.
    - rewrite Hroot, Hjoin, string_app_assoc, lower_app.
      by apply contains_app. }
  split; [done|].
  pose proof (count_in_split (fun r => contains (lower r) "sampling")
                (walked root (PosixPath.join mount_point "synth"))) as Hsplit.
  subst c. cbn [patch_counts synth_synthesis_files synth_sampler_files] in *.
  lia.
Qed.

Lemma patch_counts_sampling_witness :
  let c := patch_counts
             (Dir [("Volumes", Dir [("Sampling", patches_device [])])])
             "/Volumes/Sampling" in
  synth_synthesis_files c = 0
  ∧ synth_sampler_files c
    = count_in (fun _ => true)
        (walked (Dir [("Volumes", Dir [("Sampling", patches_device [])])])
           (PosixPath.join "/Volumes/Sampling" "synth")).
Proof.
  apply (patch_counts_sampling
           (Dir [("Volumes", Dir [("Sampling", patches_device [])])])
           "/Volumes/Sampling").
  - vm_compute. reflexivity.
  - vm_compute. reflexivity.
Defined.

End StorageFacts.

(** ** The commands of a rip *)

Module RipsFacts.
Import Rips.

(** The commands [check_call] was called with. *)
Definition calls (t : list event) : list (list string) :=
  omap (fun ev => match ev with Call c => Some c | _ => None end) t.

(** The arguments of the three commands for one side: the [.aif] of the
    device to FLAC, then the FLAC to ALAC and to MP3. *)
Definition planned_side (fullpath albums side : string) : list (list string) :=
  let flac_output := PosixPath.join fullpath (side +:+ ".flac") in
  [ arguments (PosixPath.join albums (side +:+ ".aif")) "flac" flac_output [];
    arguments flac_output "alac" (PosixPath.join fullpath (side +:+ ".m4a")) [];
    arguments flac_output "libmp3lame"
      (PosixPath.join fullpath (side +:+ ".mp3")) ["-q:a"; "0"] ].

(** The six commands of a rip, without their binaries. *)
Definition planned (RIPS_DIR mount name : string) : list (list string) :=
  let fullpath := PosixPath.normpath (PosixPath.join RIPS_DIR name) in
  let albums := PosixPath.normpath (PosixPath.join mount "album") in
  planned_side fullpath albums "side_a" ++ planned_side fullpath albums "side_b".

Definition binary_ok (command : list string) : Prop :=
  head command = Some "ffmpeg" ∨ head command = Some "avconv".

Section Runs.
Context {S : Type} (w : world S).

(** A run follows a plan: its commands, binaries apart, are the first
    so many of the plan, all of it when the run raises nothing. *)
Definition follows {A} (plan : list (list string))
    (r : except A * S * list event) : Prop :=
  map (drop 1) (calls r.2) `prefix_of` plan
  ∧ Forall binary_ok (calls r.2)
  ∧ (∀ a, r.1.1 = Ok a → map (drop 1) (calls r.2) = plan).

Lemma calls_app t1 t2 : calls (t1 ++ t2) = calls t1 ++ calls t2.
Proof. apply omap_app. Qed.

Lemma follows_bind {A B} plan1 plan2 (m : M A) (k : A → M B) σ :
  follows plan1 (m σ) →
  (∀ a σ1, follows plan2 (k a σ1)) →
  follows (plan1 ++ plan2) (bind m k σ).
Proof.
  intros (Hpre & Hbin & Hall) Hk. unfold follows, bind in *.
  destruct (m σ) as [[[a|e] σ1] t1]; cbn [fst snd] in *.
  - specialize (Hk a σ1). destruct (k a σ1) as [[r σ2] t2].
    destruct Hk as (Hpre2 & Hbin2 & Hall2). cbn [fst snd] in *.
    rewrite calls_app, map_app, (Hall a eq_refl). split_and!.
    + by apply prefix_app.
    + rewrite Forall_app. done.
    + intros b Hb. by rewrite (Hall2 b Hb).
  - split_and!; [by apply prefix_app_r|done|done].
Qed.

Lemma follows_emit ev σ :
  (∀ c, ev ≠ Call c) → follows [] (emit ev σ).
Proof.
  intros Hev. unfold follows, emit. cbn [fst snd].
  assert (calls [ev] = []) as -> by (destruct ev; [done..|by destruct (Hev command)]).
  by split_and!.
Qed.

Lemma follows_raise {A} plan e σ : follows plan (raise (A:=A) e σ).
Proof. split_and!; [apply prefix_nil|constructor|done]. Qed.

Lemma follows_transcode input_file codec output_file codec_flags σ :
  follows [arguments input_file codec output_file codec_flags]
    (transcode w input_file codec output_file codec_flags σ).
Proof.
  unfold transcode, get_ffmpeg_binary.
  assert (∀ binary σ1,
            binary = "ffmpeg" ∨ binary = "avconv" →
            follows [arguments input_file codec output_file codec_flags]
              (match makedirs w σ1 (dirname (PosixPath.normpath output_file)) true with
               | (Raise e, σ2) =>
                   (Raise (Exn RuntimeError
                             ("Error during transcoding: " +:+ exn_msg e)), σ2, [])
               | (Ok _, σ2) =>
                   match check_call w σ2
                           (binary :: arguments input_file codec output_file
                                        codec_flags) with
                   | (Completed, σ3) =>
                       (Ok (), σ3,
                        [] ++ [Call (binary :: arguments input_file codec
                                                 output_file codec_flags)])
                   | (CalledProcessError msg, σ3) =>
                       (Raise (Exn RuntimeError ("Transcoding failed: " +:+ msg)),
                        σ3,
                        [] ++ [Call (binary :: arguments input_file codec
                                                 output_file codec_flags)])
                   | (CallFailed msg, σ3) =>
                       (Raise (Exn RuntimeError
                                 ("Error during transcoding: " +:+ msg)),
                        σ3,
                        [] ++ [Call (binary :: arguments input_file codec
                                                 output_file codec_flags)])
                   end
               end)) as Hrun.
  { intros binary σ1 Hbin.
    destruct (makedirs _ _ _ _) as [[[]|e] σ2].
    - assert (binary_ok (binary :: arguments input_file codec output_file
                                       codec_flags)) as Hok
        by (destruct Hbin as [-> | ->]; [by left|by right]).
      destruct (check_call _ _ _) as [[|msg|msg] σ3];
        (split_and!; [done|by constructor|done]).
    - split_and!; [apply prefix_nil|constructor|done]. }
  destruct (which w σ "ffmpeg"); [by apply Hrun; left|].
  destruct (which w σ "avconv"); [by apply Hrun; right|].
  split_and!; [apply prefix_nil|constructor|done].
Qed.

Lemma follows_rip_side fullpath albums side σ :
  follows (planned_side fullpath albums side)
    (rip_side w fullpath albums side σ).
Proof.
  unfold rip_side. destruct (negb _); [apply follows_raise|].
  unfold planned_side.
  apply (follows_bind [] [_; _; _]); [by apply follows_emit|]. intros _ σ1.
  apply (follows_bind [_] [_; _]); [apply follows_transcode|]. intros _ σ2.
  apply (follows_bind [] [_; _]); [by apply follows_emit|]. intros _ σ3.
  apply (follows_bind [] [_; _]); [by apply follows_emit|]. intros _ σ4.
  apply (follows_bind [_] [_]); [apply follows_transcode|]. intros _ σ5.
  apply (follows_bind [] [_]); [by apply follows_emit|]. intros _ σ6.
  apply follows_transcode.
Qed.

Lemma follows_create_rip_body RIPS_DIR mount name σ :
  follows (planned RIPS_DIR mount name)
    (create_rip_body w RIPS_DIR mount name σ).
Proof.
  unfold create_rip_body, planned.
  set (fullpath := PosixPath.normpath (PosixPath.join RIPS_DIR name)).
  set (albums := PosixPath.normpath (PosixPath.join mount "album")).
  apply (follows_bind [] (_ ++ _)).
  { unfold make_rip_directory.
    destruct (makedirs _ _ _ _) as [[[]|e] σ1].
    - by split_and!.
    - destruct (decide _); (split_and!; [apply prefix_nil|constructor|done]). }
  intros _ σ1.
  apply (follows_bind [] (_ ++ _)); [by apply follows_emit|]. intros _ σ2.
  rewrite <- (app_nil_r (_ ++ _)).
  apply follows_bind.
  - cbn [for_each sides].
    apply follows_bind; [apply follows_rip_side|]. intros _ σ3.
    rewrite <- (app_nil_r (planned_side _ _ "side_b")).
    apply follows_bind; [apply follows_rip_side|]. intros _ σ4.
    by split_and!.
  - intros _ σ3.
    apply (follows_bind [] []); [by apply follows_emit|]. intros _ σ4.
    by apply follows_emit.
Qed.

End Runs.

(** X21: Whatever the world does, [create_rip] calls [check_call] with the
    first so many of six commands, in this order: for side A and then
    for side B, the [.aif] of the device to FLAC, the FLAC to ALAC and the
    FLAC to MP3; each with [ffmpeg] or [avconv] as the binary. It stops
    at the first failure: it returns only when all six were called, and
    otherwise the last event is the line [Error during ripping process]
    on the standard error and the program exits with status 1. *)
Theorem create_rip_commands :
  ∀ (S : Type) (w : world S) (RIPS_DIR mount name : string) (σ : S),
    let result := create_rip w RIPS_DIR mount name σ in
    map (drop 1) (calls result.2) `prefix_of` planned RIPS_DIR mount name
    ∧ Forall binary_ok (calls result.2)
    ∧ (result.1.1 = Returned →
       map (drop 1) (calls result.2) = planned RIPS_DIR mount name
       ∧ last result.2 = Some (Pause "Press any key to return to op1-REpacker"))
    ∧ (result.1.1 ≠ Returned →
       result.1.1 = Exited 1
       ∧ ∃ msg, last result.2
                = Some (EchoErr ("Error during ripping process: " +:+ msg))).
Proof.
  intros S w RIPS_DIR mount name σ result.
  pose proof (follows_create_rip_body w RIPS_DIR mount name σ)
    as (Hpre & Hbin & Hall).
  assert (∀ t, (create_rip_body w RIPS_DIR mount name σ).1.1 = Ok () →
               (create_rip_body w RIPS_DIR mount name σ).2 = t →
               last t = Some (Pause "Press any key to return to op1-REpacker"))
    as Hlast.
  { intros t Hok <-. unfold create_rip_body, bind in *.
    destruct (make_rip_directory _ _ _) as [[[[]|e] σ1] t1]; [|done].
    cbn [emit] in *.
    destruct (for_each _ _ _) as [[[[]|e] σ2] t2]; [|done].
    cbn [fst snd]. by rewrite !app_assoc, last_snoc. }
  subst result. unfold create_rip.
  destruct (create_rip_body w RIPS_DIR mount name σ) as [[[[]|e] σ1] t];
    cbn [fst snd] in *.
  - split_and!; [done|done| |done].
    intros _. split; [by apply (Hall ())|by apply Hlast].
  - rewrite calls_app. cbn [calls omap]. rewrite app_nil_r.
    split_and!; [done|done|done|].
    intros _. split; [done|]. exists (exn_msg e). by rewrite last_snoc.
Qed.

(** X22: A rip never writes into a directory that is already there, and it
    asks for nothing when a side is missing on the device: when
    [os.makedirs] raises for the directory of the rip, or when the [.aif]
    of side A does not exist, [check_call] is not called at all and the
    program exits with status 1 after one line on the standard error. *)
Theorem create_rip_refuses :
  ∀ (S : Type) (w : world S) (RIPS_DIR mount name : string) (σ : S),
    let fullpath := PosixPath.normpath (PosixPath.join RIPS_DIR name) in
    let albums := PosixPath.normpath (PosixPath.join mount "album") in
    let result := create_rip w RIPS_DIR mount name σ in
    (∀ e, (makedirs w σ fullpath false).1 = Raise e →
       result
       = (Exited 1, (makedirs w σ fullpath false).2,
          [EchoErr ("Error during ripping process: "
                    +:+ (if decide (exn_cls e = FileExistsError)
                         then "Rip directory already exists: " +:+ fullpath
                         else exn_msg e))]))
    ∧ ((makedirs w σ fullpath false).1 = Ok () →
       file_exists w (makedirs w σ fullpath false).2
         (PosixPath.join albums "side_a.aif") = false →
       result
       = (Exited 1, (makedirs w σ fullpath false).2,
          [Echo ("Writing rips to " +:+ fullpath);
           EchoErr ("Error during ripping process: Source file not found: "
                    +:+ PosixPath.join albums "side_a.aif")])).
Proof.
  intros S w RIPS_DIR mount name σ fullpath albums result.
  subst result. unfold create_rip, create_rip_body, bind, make_rip_directory.
  fold fullpath. fold albums.
  destruct (makedirs w σ fullpath false) as [[[]|e] σ1]; cbn [fst snd].
  - split; [done|]. intros _ Hmissing.
    cbn [emit for_each sides]. unfold bind, rip_side.
    change ("side_a" +:+ ".aif") with "side_a.aif".
    by rewrite Hmissing.
  - split; [|done]. intros e' [= <-].
    by destruct (decide (exn_cls e = FileExistsError)).
Qed.

End RipsFacts.

(** ** Restoring the same backup again *)

Module RestoreAgainFacts.
Import Fs Tar Backups Op1 PathFacts TreeFacts GenerateFacts RestoreFacts Op1Facts.

Section Again.
Context (device : node) (mount : string).




End Again.






End RestoreAgainFacts.
